(** * HDTV display core: Painter geometry, viewport object ids, viewer dispatch

    A shallow embedding of [src/display/Painter.h] and
    [src/display/Viewer.cxx], and of the object management and view state
    declared in [src/gspec/GSViewport.h].

    - [UInt_t] is a [Z] in [0, 2^32) with the wrap-around written out.
    - [double] is IEEE 754 binary64, through the executable specification
      of the Standard Library ([spec_float] with [prec = 53] and
      [emax = 1024]).
    - A handler of the viewer returns its result together with the calls
      it made on its collaborators (a writer monad).
    - Member functions whose bodies are in Painter.cxx or GSViewport.cxx
      are modelled from the specification; each such definition says so. *)

From Stdlib Require Import ZArith Lia Bool List QArith Qround Field.
From Stdlib Require Import Floats.SpecFloat.
From stdpp Require Import base option list.

Local Open Scope Z_scope.

(** ** Machine integers *)

Module UInt32.

Definition modulus : Z := 2 ^ 32.

(** Conversion of any integer to [UInt_t] (C++ [conv.integral]). *)
Definition wrap (z : Z) : Z := z mod modulus.

Definition add (a b : Z) : Z := wrap (a + b).
Definition sub (a b : Z) : Z := wrap (a - b).

(** [>=] and [<=] on two [UInt_t] operands. *)
Definition geb (a b : Z) : bool := b <=? a.
Definition leb (a b : Z) : bool := a <=? b.

Definition wf (a : Z) : Prop := 0 <= a < modulus.

End UInt32.

Module Int32.

Definition min_int : Z := - 2 ^ 31.
Definition max_int : Z := 2 ^ 31 - 1.

Definition in_range (z : Z) : bool := (min_int <=? z) && (z <=? max_int).

End Int32.

(** ** IEEE 754 binary64 *)

Module Double.

Definition prec : Z := 53.
Definition emax : Z := 1024.

Definition double : Set := spec_float.

Definition add : double -> double -> double := SFadd prec emax.
Definition sub : double -> double -> double := SFsub prec emax.
Definition mul : double -> double -> double := SFmul prec emax.
Definition div : double -> double -> double := SFdiv prec emax.

Definition ltb : double -> double -> bool := SFltb.
Definition leb : double -> double -> bool := SFleb.
Definition eqb : double -> double -> bool := SFeqb.

(** Integer to [double] conversion, round to nearest even; exact for
    every [int] and [UInt_t]. *)
Definition of_Z (z : Z) : double := binary_normalize prec emax z 0 false.

Definition opp : double -> double := SFopp.

Definition zero : double := S754_zero false.

(** The literal [0.5]. *)
Definition half : double := S754_finite false (2 ^ 52) (-53).

(** [ceil] of the C library: the least integral value not below the
    argument; zeros, infinities and NaN are returned unchanged, and a
    negative argument above [-1] gives [-0.0]. *)
Definition ceil (d : double) : double :=
  match d with
  | S754_finite s m e =>
      if 0 <=? e then d
      else
        let c := - ((- cond_Zopp s (Zpos m)) / 2 ^ (- e)) in
        if c =? 0 then S754_zero s else of_Z c
  | _ => d
  end.

(** Truncation toward zero of a finite value. *)
Definition trunc (d : double) : option Z :=
  match d with
  | S754_zero _ => Some 0
  | S754_finite s m e =>
      Some (cond_Zopp s (if 0 <=? e then Zpos m * 2 ^ e
                         else Zpos m / 2 ^ (- e)))
  | S754_infinity _ | S754_nan => None
  end.

(** The conversion [(int) d]: truncation toward zero; the behaviour is
    undefined ([None]) when the truncated value is not an [int]. *)
Definition to_int (d : double) : option Z :=
  match trunc d with
  | Some z => if Int32.in_range z then Some z else None
  | None => None
  end.

(** A value of the format: the mantissa is canonical for the exponent
    (at most 53 bits) and the exponent is in range. *)
Definition valid (d : double) : bool := valid_binary prec emax d.

(** The rational number a finite value denotes. *)
Definition to_Q (d : double) : option Q :=
  match d with
  | S754_zero _ => Some 0%Q
  | S754_finite s m e =>
      Some (match e with
            | Zneg k => Qmake (cond_Zopp s (Zpos m)) (2 ^ k)
            | _ => inject_Z (cond_Zopp s (Zpos m * 2 ^ e))
            end)
  | S754_infinity _ | S754_nan => None
  end.

(** The least integer not below the value, when the value is finite and
    that integer is an [int]. *)
Definition ceiling_int (d : double) : option Z :=
  match to_Q d with
  | Some q => if Int32.in_range (Qceiling q) then Some (Qceiling q) else None
  | None => None
  end.

End Double.

Abbreviation double := Double.double.

(** ** Painter (src/display/Painter.h) *)

Module Painter.

Inductive ViewMode : Set := kVMSolid | kVMHollow | kVMDotted.

(** The data members of [class Painter]; [Drawable_t], [GContext_t],
    [FontStruct_t] and the font pointer are opaque toolkit handles. *)
Record Painter : Set := mkPainter {
  fXZoom : double;
  fYZoom : double;
  fXVisibleRegion : double;
  fYVisibleRegion : double;
  fXOffset : double;
  fYOffset : double;
  fLogScale : bool;
  fXBase : Z;
  fYBase : Z;
  fWidth : Z;
  fHeight : Z;
  fViewMode : ViewMode;
  fDrawable : Z;
  fAxisGC : Z;
  fClearGC : Z;
  fFont : Z;
  fFontStruct : Z
}.

(** The four [UInt_t] members hold values of their type. *)
Definition wf (p : Painter) : Prop :=
  UInt32.wf (fXBase p) /\ UInt32.wf (fYBase p) /\
  UInt32.wf (fWidth p) /\ UInt32.wf (fHeight p).

(** *** Assignments to single members *)

Definition set_fXZoom (v : double) (p : Painter) : Painter :=
  mkPainter v (fYZoom p) (fXVisibleRegion p) (fYVisibleRegion p)
    (fXOffset p) (fYOffset p) (fLogScale p) (fXBase p) (fYBase p)
    (fWidth p) (fHeight p) (fViewMode p) (fDrawable p) (fAxisGC p)
    (fClearGC p) (fFont p) (fFontStruct p).

Definition set_fYZoom (v : double) (p : Painter) : Painter :=
  mkPainter (fXZoom p) v (fXVisibleRegion p) (fYVisibleRegion p)
    (fXOffset p) (fYOffset p) (fLogScale p) (fXBase p) (fYBase p)
    (fWidth p) (fHeight p) (fViewMode p) (fDrawable p) (fAxisGC p)
    (fClearGC p) (fFont p) (fFontStruct p).

Definition set_fXVisibleRegion (v : double) (p : Painter) : Painter :=
  mkPainter (fXZoom p) (fYZoom p) v (fYVisibleRegion p)
    (fXOffset p) (fYOffset p) (fLogScale p) (fXBase p) (fYBase p)
    (fWidth p) (fHeight p) (fViewMode p) (fDrawable p) (fAxisGC p)
    (fClearGC p) (fFont p) (fFontStruct p).

Definition set_fYVisibleRegion (v : double) (p : Painter) : Painter :=
  mkPainter (fXZoom p) (fYZoom p) (fXVisibleRegion p) v
    (fXOffset p) (fYOffset p) (fLogScale p) (fXBase p) (fYBase p)
    (fWidth p) (fHeight p) (fViewMode p) (fDrawable p) (fAxisGC p)
    (fClearGC p) (fFont p) (fFontStruct p).

Definition set_fXOffset (v : double) (p : Painter) : Painter :=
  mkPainter (fXZoom p) (fYZoom p) (fXVisibleRegion p) (fYVisibleRegion p)
    v (fYOffset p) (fLogScale p) (fXBase p) (fYBase p)
    (fWidth p) (fHeight p) (fViewMode p) (fDrawable p) (fAxisGC p)
    (fClearGC p) (fFont p) (fFontStruct p).

Definition set_fYOffset (v : double) (p : Painter) : Painter :=
  mkPainter (fXZoom p) (fYZoom p) (fXVisibleRegion p) (fYVisibleRegion p)
    (fXOffset p) v (fLogScale p) (fXBase p) (fYBase p)
    (fWidth p) (fHeight p) (fViewMode p) (fDrawable p) (fAxisGC p)
    (fClearGC p) (fFont p) (fFontStruct p).

Definition set_fLogScale (v : bool) (p : Painter) : Painter :=
  mkPainter (fXZoom p) (fYZoom p) (fXVisibleRegion p) (fYVisibleRegion p)
    (fXOffset p) (fYOffset p) v (fXBase p) (fYBase p)
    (fWidth p) (fHeight p) (fViewMode p) (fDrawable p) (fAxisGC p)
    (fClearGC p) (fFont p) (fFontStruct p).

Definition set_fBase (x y : Z) (p : Painter) : Painter :=
  mkPainter (fXZoom p) (fYZoom p) (fXVisibleRegion p) (fYVisibleRegion p)
    (fXOffset p) (fYOffset p) (fLogScale p) x y
    (fWidth p) (fHeight p) (fViewMode p) (fDrawable p) (fAxisGC p)
    (fClearGC p) (fFont p) (fFontStruct p).

Definition set_fSize (w h : Z) (p : Painter) : Painter :=
  mkPainter (fXZoom p) (fYZoom p) (fXVisibleRegion p) (fYVisibleRegion p)
    (fXOffset p) (fYOffset p) (fLogScale p) (fXBase p) (fYBase p)
    w h (fViewMode p) (fDrawable p) (fAxisGC p)
    (fClearGC p) (fFont p) (fFontStruct p).

Definition set_fViewMode (v : ViewMode) (p : Painter) : Painter :=
  mkPainter (fXZoom p) (fYZoom p) (fXVisibleRegion p) (fYVisibleRegion p)
    (fXOffset p) (fYOffset p) (fLogScale p) (fXBase p) (fYBase p)
    (fWidth p) (fHeight p) v (fDrawable p) (fAxisGC p)
    (fClearGC p) (fFont p) (fFontStruct p).

Definition set_fDrawable (v : Z) (p : Painter) : Painter :=
  mkPainter (fXZoom p) (fYZoom p) (fXVisibleRegion p) (fYVisibleRegion p)
    (fXOffset p) (fYOffset p) (fLogScale p) (fXBase p) (fYBase p)
    (fWidth p) (fHeight p) (fViewMode p) v (fAxisGC p)
    (fClearGC p) (fFont p) (fFontStruct p).

Definition set_fAxisGC (v : Z) (p : Painter) : Painter :=
  mkPainter (fXZoom p) (fYZoom p) (fXVisibleRegion p) (fYVisibleRegion p)
    (fXOffset p) (fYOffset p) (fLogScale p) (fXBase p) (fYBase p)
    (fWidth p) (fHeight p) (fViewMode p) (fDrawable p) v
    (fClearGC p) (fFont p) (fFontStruct p).

Definition set_fClearGC (v : Z) (p : Painter) : Painter :=
  mkPainter (fXZoom p) (fYZoom p) (fXVisibleRegion p) (fYVisibleRegion p)
    (fXOffset p) (fYOffset p) (fLogScale p) (fXBase p) (fYBase p)
    (fWidth p) (fHeight p) (fViewMode p) (fDrawable p) (fAxisGC p)
    v (fFont p) (fFontStruct p).

(** *** Coordinate transforms (Painter.h, lines 102-117) *)

(** [double XtoE(UInt_t x)]: the difference [x - fXBase] is taken on
    two [UInt_t] operands and converted to [double] afterwards. *)
Definition XtoE_UInt_t (p : Painter) (x : Z) : double :=
  Double.add
    (Double.div (Double.of_Z (UInt32.sub x (fXBase p))) (fXZoom p))
    (fXOffset p).

(** [int EtoX(double e)] *)
Definition EtoX (p : Painter) (e : double) : option Z :=
  Double.to_int
    (Double.ceil
       (Double.sub
          (Double.add (Double.mul (Double.sub e (fXOffset p)) (fXZoom p))
                      (Double.of_Z (fXBase p)))
          Double.half)).

(** [double XtoE(double x)] *)
Definition XtoE_double (p : Painter) (x : double) : double :=
  Double.add
    (Double.div (Double.sub x (Double.of_Z (fXBase p))) (fXZoom p))
    (fXOffset p).

(** [double dXtodE(int dX)]: the argument is an [int]; statements about
    it carry [Int32.in_range dX]. *)
Definition dXtodE (p : Painter) (dX : Z) : double :=
  Double.div (Double.of_Z dX) (fXZoom p).

Definition dEtodX (p : Painter) (dE : double) : double :=
  Double.mul dE (fXZoom p).

(** [Bool_t IsWithin(UInt_t x, UInt_t y)] *)
Definition IsWithin (p : Painter) (x y : Z) : bool :=
  UInt32.geb x (fXBase p)
  && UInt32.leb x (UInt32.add (fXBase p) (fWidth p))
  && UInt32.geb y (UInt32.sub (fYBase p) (fHeight p))
  && UInt32.leb y (fYBase p).

(** *** Setters that do not touch the zoom (Painter.h, lines 81-91) *)

Definition SetViewMode (vm : ViewMode) (p : Painter) : Painter :=
  set_fViewMode vm p.

(** [SetBasePoint(int x, int y)]: the [int] arguments are converted to
    the [UInt_t] members. *)
Definition SetBasePoint (x y : Z) (p : Painter) : Painter :=
  set_fBase (UInt32.wrap x) (UInt32.wrap y) p.

Definition SetDrawable (d : Z) (p : Painter) : Painter := set_fDrawable d p.
Definition SetAxisGC (gc : Z) (p : Painter) : Painter := set_fAxisGC gc p.
Definition SetClearGC (gc : Z) (p : Painter) : Painter := set_fClearGC gc p.

Definition SetXOffset (offset : double) (p : Painter) : Painter :=
  set_fXOffset offset p.

(** [SetXVisibleRegion] (Painter.h, lines 70-71) *)
Definition SetXVisibleRegion (xv : double) (p : Painter) : Painter :=
  let p1 := set_fXVisibleRegion xv p in
  set_fXZoom (Double.div (Double.of_Z (fWidth p1)) (fXVisibleRegion p1)) p1.

(** *** The transforms as the specification writes them *)

(** [xToEnergy(x) = (x - xBase) / xZoom + xOffset] *)
Definition xToEnergy_spec (xBase : Z) (xZoom xOffset x : double) : double :=
  Double.add (Double.div (Double.sub x (Double.of_Z xBase)) xZoom) xOffset.

(** [(e - xOffset) * xZoom + xBase - 0.5], the pixel position of an
    energy with the half-pixel bias. *)
Definition biased_pixel (xBase : Z) (xZoom xOffset e : double) : double :=
  Double.sub
    (Double.add (Double.mul (Double.sub e xOffset) xZoom) (Double.of_Z xBase))
    Double.half.

(** [energyToX(e) = ceil((e - xOffset) * xZoom + xBase - 0.5)] *)
Definition energyToX_spec (xBase : Z) (xZoom xOffset e : double) : double :=
  Double.ceil (biased_pixel xBase xZoom xOffset e).

(** The same two formulas in exact rational arithmetic, for an integer
    pixel [x]. *)
Definition xToEnergy_exact (xBase : Z) (xZoom xOffset : Q) (x : Z) : Q :=
  ((inject_Z x - inject_Z xBase) / xZoom + xOffset)%Q.

Definition energyToX_exact (xBase : Z) (xZoom xOffset e : Q) : Z :=
  Qceiling ((e - xOffset) * xZoom + inject_Z xBase - (1 # 2))%Q.

(** A painter with a left margin of 10 pixels and a plot area of 400 by
    300 pixels showing 400 energy units and 300 counts (both zooms 1). *)
Definition sample : Painter :=
  mkPainter (Double.of_Z 1) (Double.of_Z 1) (Double.of_Z 400)
    (Double.of_Z 300) Double.zero Double.zero false 10 310 400 300
    kVMSolid 0 0 0 0 0.

(** The sample painter with its base point at the origin, and with a
    height (500) above its base line (310). *)
Definition sample_origin : Painter := set_fBase 0 0 sample.
Definition sample_tall : Painter := set_fSize 400 500 sample.

(** The y zoom of the linear scale, [height / yVisibleRegion], as an
    instance of the value [UpdateYZoom] stores. *)
Definition linear_yzoom (yv yo : double) (l : bool) (h : Z) : double :=
  Double.div (Double.of_Z h) yv.

(** *** The y zoom (Painter.h, lines 73-79, 85, 92, 144) *)

Section YZoom.

(** The value [UpdateYZoom] stores in [fYZoom], as a function of the
    visible count range, its offset, the scale mode and the pixel
    height. [UpdateYZoom] is declared in Painter.h (line 144); its body
    is in Painter.cxx. *)
Variable yZoomFor : double -> double -> bool -> Z -> double.

(** Modelled from the spec: the body of [UpdateYZoom] is missing; it
    "recompute[s] yZoom so that the visible count range maps exactly to
    the pixel height under the current scale mode", from
    [yVisibleRegion], [yOffset], [logScale] and [height], and assigns no
    other member. *)
Definition UpdateYZoom (p : Painter) : Painter :=
  set_fYZoom
    (yZoomFor (fYVisibleRegion p) (fYOffset p) (fLogScale p) (fHeight p)) p.

Definition SetYVisibleRegion (yv : double) (p : Painter) : Painter :=
  UpdateYZoom (set_fYVisibleRegion yv p).

Definition SetLogScale (l : bool) (p : Painter) : Painter :=
  UpdateYZoom (set_fLogScale l p).

Definition SetYOffset (offset : double) (p : Painter) : Painter :=
  UpdateYZoom (set_fYOffset offset p).

(** Modelled from the spec: the body of [SetSize(int w, int h)] is
    missing (declared in Painter.h, line 85); it stores the new size,
    keeps "xZoom = width / xVisibleRegion" and, the height having
    changed, recomputes [yZoom]. *)
Definition SetSize (w h : Z) (p : Painter) : Painter :=
  let p1 := set_fSize (UInt32.wrap w) (UInt32.wrap h) p in
  let p2 :=
    set_fXZoom (Double.div (Double.of_Z (fWidth p1)) (fXVisibleRegion p1)) p1 in
  UpdateYZoom p2.

(** The state-changing public operations of [Painter]. *)
Inductive Op : Set :=
| OpSetXVisibleRegion (xv : double)
| OpSetYVisibleRegion (yv : double)
| OpSetLogScale (l : bool)
| OpSetViewMode (vm : ViewMode)
| OpSetBasePoint (x y : Z)
| OpSetSize (w h : Z)
| OpSetDrawable (d : Z)
| OpSetAxisGC (gc : Z)
| OpSetClearGC (gc : Z)
| OpSetXOffset (offset : double)
| OpSetYOffset (offset : double).

Definition run (op : Op) (p : Painter) : Painter :=
  match op with
  | OpSetXVisibleRegion xv => SetXVisibleRegion xv p
  | OpSetYVisibleRegion yv => SetYVisibleRegion yv p
  | OpSetLogScale l => SetLogScale l p
  | OpSetViewMode vm => SetViewMode vm p
  | OpSetBasePoint x y => SetBasePoint x y p
  | OpSetSize w h => SetSize w h p
  | OpSetDrawable d => SetDrawable d p
  | OpSetAxisGC gc => SetAxisGC gc p
  | OpSetClearGC gc => SetClearGC gc p
  | OpSetXOffset o => SetXOffset o p
  | OpSetYOffset o => SetYOffset o p
  end.

(** The operations whose body assigns [fXZoom]. *)
Definition assigns_xzoom (op : Op) : bool :=
  match op with
  | OpSetXVisibleRegion _ | OpSetSize _ _ => true
  | _ => false
  end.

(** [xZoom = width / xVisibleRegion] *)
Definition XZoomInv (p : Painter) : Prop :=
  fXZoom p = Double.div (Double.of_Z (fWidth p)) (fXVisibleRegion p).

End YZoom.

End Painter.

(** ** Viewport object management (src/gspec/GSViewport.h) *)

Module GSViewport.

(** A collection [std::vector<itemType *>]: a slot holds an object or is
    vacant; the id of an object is the index of its slot. *)
Abbreviation Items A := (list (option A)).

Section Collection.

Context {A : Type}.

(** The index of the first vacant slot, the length when there is none. *)
Fixpoint first_vacant (items : Items A) : nat :=
  match items with
  | [] => 0%nat
  | None :: _ => 0%nat
  | Some _ :: rest => S (first_vacant rest)
  end.

(** Modelled from the spec: the body of [FindFreeId] (GSViewport.h, line
    103) is missing; it yields "the lowest available id ... (first-fit
    over vacated slots)" and makes room for it at the end of the sequence
    when no slot is vacant. *)
Definition FindFreeId (items : Items A) : nat * Items A :=
  let id := first_vacant items in
  (id, if (id <? length items)%nat then items else items ++ [None]).

(** Modelled from the spec: the body of [DeleteItem] (GSViewport.h, line
    105) is missing; it "removes [the object] from the collection [and]
    frees its id"; an id that names no slot changes nothing. *)
Definition DeleteItem (items : Items A) (id : nat) : Items A :=
  <[id := None]> items.

(** Modelled from the spec: the common part of the missing [Add*] bodies,
    "assigns lowest free id" and stores the object under it. *)
Definition AddItem (x : A) (items : Items A) : nat * Items A :=
  let '(id, items1) := FindFreeId items in
  (id, <[id := Some x]> items1).

(** Modelled from the spec: the common part of the missing [DeleteAll*]
    bodies, which "clears a whole collection in one step". *)
Definition DeleteAllItems (items : Items A) : Items A := [].

(** The object stored under an id, if any ([Get*]). *)
Definition GetItem (items : Items A) (id : nat) : option A :=
  match items !! id with
  | Some (Some x) => Some x
  | _ => None
  end.

End Collection.

(** A displayed spectrum or function: handle of the data object and
    colour; a marker: position and colour. *)
Record DisplayObj : Set := mkDisplayObj { objHandle : Z; objColor : Z }.
Record Marker : Set := mkMarker { markerPos : double; markerColor : Z }.

(** The members of [class GSViewport] that hold the view state and the
    four collections (GSViewport.h, lines 111-126). *)
Record GSViewport : Type := mkGSViewport {
  fXVisibleRegion : double;
  fYVisibleRegion : double;
  fYMinVisibleRegion : double;
  fXOffset : double;
  fYOffset : double;
  fSpectra : Items DisplayObj;
  fFunctions : Items DisplayObj;
  fXMarkers : Items Marker;
  fYMarkers : Items Marker;
  fYAutoScale : bool;
  fPainter : Painter.Painter
}.

Definition set_fSpectra (v : Items DisplayObj) (vp : GSViewport) : GSViewport :=
  mkGSViewport (fXVisibleRegion vp) (fYVisibleRegion vp)
    (fYMinVisibleRegion vp) (fXOffset vp) (fYOffset vp) v (fFunctions vp)
    (fXMarkers vp) (fYMarkers vp) (fYAutoScale vp) (fPainter vp).

Definition set_fFunctions (v : Items DisplayObj) (vp : GSViewport) : GSViewport :=
  mkGSViewport (fXVisibleRegion vp) (fYVisibleRegion vp)
    (fYMinVisibleRegion vp) (fXOffset vp) (fYOffset vp) (fSpectra vp) v
    (fXMarkers vp) (fYMarkers vp) (fYAutoScale vp) (fPainter vp).

Definition set_fXMarkers (v : Items Marker) (vp : GSViewport) : GSViewport :=
  mkGSViewport (fXVisibleRegion vp) (fYVisibleRegion vp)
    (fYMinVisibleRegion vp) (fXOffset vp) (fYOffset vp) (fSpectra vp)
    (fFunctions vp) v (fYMarkers vp) (fYAutoScale vp) (fPainter vp).

Definition set_fYMarkers (v : Items Marker) (vp : GSViewport) : GSViewport :=
  mkGSViewport (fXVisibleRegion vp) (fYVisibleRegion vp)
    (fYMinVisibleRegion vp) (fXOffset vp) (fYOffset vp) (fSpectra vp)
    (fFunctions vp) (fXMarkers vp) v (fYAutoScale vp) (fPainter vp).

Definition set_yregion (v : double) (pt : Painter.Painter) (vp : GSViewport)
  : GSViewport :=
  mkGSViewport (fXVisibleRegion vp) v
    (fYMinVisibleRegion vp) (fXOffset vp) (fYOffset vp) (fSpectra vp)
    (fFunctions vp) (fXMarkers vp) (fYMarkers vp) (fYAutoScale vp) pt.

(** Object management (GSViewport.h, lines 69-90). The redraw an
    operation triggers when [update] is true reads the collections and
    leaves them as they are; it is not part of this model. *)

(** Modelled from the spec: the body of [AddSpec] is missing
    (GSViewport.h, line 80); it stores the object under the id [AddItem] allocates. *)
Definition AddSpec (spec color : Z) (vp : GSViewport) : nat * GSViewport :=
  let '(id, items) := AddItem (mkDisplayObj spec color) (fSpectra vp) in
  (id, set_fSpectra items vp).

(** Modelled from the spec: the body of [GetDisplaySpec] is missing
    (GSViewport.h, line 81); it looks the id up with [GetItem]. *)
Definition GetDisplaySpec (id : nat) (vp : GSViewport) : option DisplayObj :=
  GetItem (fSpectra vp) id.

(** Modelled from the spec: the body of [DeleteSpec] is missing
    (GSViewport.h, line 83); it vacates the slot of the id with [DeleteItem]. *)
Definition DeleteSpec (id : nat) (vp : GSViewport) : GSViewport :=
  set_fSpectra (DeleteItem (fSpectra vp) id) vp.

(** Modelled from the spec: the body of [DeleteAllSpecs] is missing
    (GSViewport.h, line 84); it clears the collection with [DeleteAllItems]. *)
Definition DeleteAllSpecs (vp : GSViewport) : GSViewport :=
  set_fSpectra (DeleteAllItems (fSpectra vp)) vp.

(** Modelled from the spec: the body of [AddFunc] is missing
    (GSViewport.h, line 86); it stores the object under the id [AddItem] allocates. *)
Definition AddFunc (func color : Z) (vp : GSViewport) : nat * GSViewport :=
  let '(id, items) := AddItem (mkDisplayObj func color) (fFunctions vp) in
  (id, set_fFunctions items vp).

(** Modelled from the spec: the body of [GetDisplayFunc] is missing
    (GSViewport.h, line 87); it looks the id up with [GetItem]. *)
Definition GetDisplayFunc (id : nat) (vp : GSViewport) : option DisplayObj :=
  GetItem (fFunctions vp) id.

(** Modelled from the spec: the body of [DeleteFunc] is missing
    (GSViewport.h, line 89); it vacates the slot of the id with [DeleteItem]. *)
Definition DeleteFunc (id : nat) (vp : GSViewport) : GSViewport :=
  set_fFunctions (DeleteItem (fFunctions vp) id) vp.

(** Modelled from the spec: the body of [DeleteAllFuncs] is missing
    (GSViewport.h, line 90); it clears the collection with [DeleteAllItems]. *)
Definition DeleteAllFuncs (vp : GSViewport) : GSViewport :=
  set_fFunctions (DeleteAllItems (fFunctions vp)) vp.

(** Modelled from the spec: the body of [AddXMarker] is missing
    (GSViewport.h, line 69); it stores the object under the id [AddItem] allocates. *)
Definition AddXMarker (pos : double) (color : Z) (vp : GSViewport)
  : nat * GSViewport :=
  let '(id, items) := AddItem (mkMarker pos color) (fXMarkers vp) in
  (id, set_fXMarkers items vp).

(** Modelled from the spec: the body of [GetXMarker] is missing
    (GSViewport.h, line 70); it looks the id up with [GetItem]. *)
Definition GetXMarker (id : nat) (vp : GSViewport) : option Marker :=
  GetItem (fXMarkers vp) id.

(** Modelled from the spec: the body of [DeleteXMarker] is missing
    (GSViewport.h, line 72); it vacates the slot of the id with [DeleteItem]. *)
Definition DeleteXMarker (id : nat) (vp : GSViewport) : GSViewport :=
  set_fXMarkers (DeleteItem (fXMarkers vp) id) vp.

(** Modelled from the spec: the body of [DeleteAllXMarkers] is missing
    (GSViewport.h, line 73); it clears the collection with [DeleteAllItems]. *)
Definition DeleteAllXMarkers (vp : GSViewport) : GSViewport :=
  set_fXMarkers (DeleteAllItems (fXMarkers vp)) vp.

(** Modelled from the spec: the body of [AddYMarker] is missing
    (GSViewport.h, line 75); it stores the object under the id [AddItem] allocates. *)
Definition AddYMarker (pos : double) (color : Z) (vp : GSViewport)
  : nat * GSViewport :=
  let '(id, items) := AddItem (mkMarker pos color) (fYMarkers vp) in
  (id, set_fYMarkers items vp).

(** Modelled from the spec: the body of [GetYMarker] is missing
    (GSViewport.h, line 76); it looks the id up with [GetItem]. *)
Definition GetYMarker (id : nat) (vp : GSViewport) : option Marker :=
  GetItem (fYMarkers vp) id.

(** Modelled from the spec: the body of [DeleteYMarker] is missing
    (GSViewport.h, line 77); it vacates the slot of the id with [DeleteItem]. *)
Definition DeleteYMarker (id : nat) (vp : GSViewport) : GSViewport :=
  set_fYMarkers (DeleteItem (fYMarkers vp) id) vp.

(** Modelled from the spec: the body of [DeleteAllYMarkers] is missing
    (GSViewport.h, line 78); it clears the collection with [DeleteAllItems]. *)
Definition DeleteAllYMarkers (vp : GSViewport) : GSViewport :=
  set_fYMarkers (DeleteAllItems (fYMarkers vp)) vp.

(** A viewport with nothing displayed, a minimal visible count range of
    1/1000 and the sample painter. *)
Definition sample : GSViewport :=
  mkGSViewport (Double.of_Z 400) (Double.of_Z 300)
    (Double.div (Double.of_Z 1) (Double.of_Z 1000)) Double.zero Double.zero
    [] [] [] [] false Painter.sample.

Section YRegion.

Variable yZoomFor : double -> double -> bool -> Z -> double.

(** Modelled from the spec: the body of [SetYVisibleRegion]
    (GSViewport.h, line 47) is missing; a region "<= 0" is "clamp[ed] to
    a minimal epsilon", the member [fYMinVisibleRegion] (line 112), and
    the stored region is handed to the painter. *)
Definition SetYVisibleRegion (region : double) (vp : GSViewport) : GSViewport :=
  let r :=
    if Double.leb region Double.zero then fYMinVisibleRegion vp else region in
  set_yregion r (Painter.SetYVisibleRegion yZoomFor r (fPainter vp)) vp.

End YRegion.

End GSViewport.

(** ** Viewer (src/display/Viewer.cxx) *)

Module Viewer.

(** The event fields [HandleKey] reads or passes on. *)
Record Event_t : Set := mkEvent { fType : Z; fCode : Z; fState : Z }.

(** The calls a handler makes on its collaborators. *)
Inductive Call : Set :=
| CallLookupString (ev : Event_t)
| CallKeyPressed
| CallHandleScrollbar (parm : Z).

(** A computation returns a value and the calls it made, in order. *)
Definition M (A : Type) : Type := A * list Call.

#[global] Instance M_ret : MRet M := fun A a => (a, []).

#[global] Instance M_bind : MBind M := fun A B f m =>
  let '(a, c1) := m in
  let '(b, c2) := f a in
  (b, c1 ++ c2).

Definition call (c : Call) : M unit := (tt, [c]).

Definition result {A : Type} (m : M A) : A := fst m.
Definition calls {A : Type} (m : M A) : list Call := snd m.

Section Toolkit.

(** Of the toolkit: the message decoders [GET_MSG] and [GET_SUBMSG], the
    message codes and the event type of a key press. *)
Variables GET_MSG GET_SUBMSG : Z -> Z.
Variables kC_HSCROLL kSB_SLIDERTRACK kGKeyPress : Z.

(** [Bool_t Viewer::HandleKey(Event_t *ev)] (Viewer.cxx, lines 68-76) *)
Definition HandleKey (ev : Event_t) : M bool :=
  (if fType ev =? kGKeyPress
   then call (CallLookupString ev) ;; call CallKeyPressed
   else mret tt) ;;
  mret true.

(** The statements of the body of [Viewer::ProcessMessage(Long_t msg,
    Long_t parm1, Long_t)] (Viewer.cxx, lines 80-83). *)
Definition ProcessMessage_statements (msg parm1 parm2 : Z) : M unit :=
  if GET_MSG msg =? kC_HSCROLL
  then (if GET_SUBMSG msg =? kSB_SLIDERTRACK
        then call (CallHandleScrollbar parm1)
        else mret tt)
  else mret tt.

(** Control reaches the closing brace of a function that returns a value
    without meeting a [return] statement: the behaviour of the call is
    undefined ([None]), the statements before the brace included. *)
Definition flows_off_end (m : M unit) : option (M bool) := None.

(** [Bool_t Viewer::ProcessMessage(Long_t msg, Long_t parm1, Long_t)]
    (Viewer.cxx, lines 78-84): the body ends after the statements above;
    it has no [return] statement. *)
Definition ProcessMessage (msg parm1 parm2 : Z) : option (M bool) :=
  flows_off_end (ProcessMessage_statements msg parm1 parm2).

End Toolkit.

End Viewer.

(** ** Classes of double values *)

Module DoubleClass.

(** The sign bit of a value; a NaN carries none. *)
Definition sign_bit (d : double) : option bool :=
  match d with
  | S754_zero s | S754_infinity s | S754_finite s _ _ => Some s
  | S754_nan => None
  end.

Definition is_nan (d : double) : bool :=
  match d with S754_nan => true | _ => false end.

(** Zeros and finite values, that is neither infinite nor NaN. *)
Definition is_finite (d : double) : bool :=
  match d with S754_zero _ | S754_finite _ _ _ => true | _ => false end.

End DoubleClass.

(** ** Painter: accessors (Painter.h, lines 84-87) *)

Module PainterAccess.

(** [UInt_t GetBaseX()], [GetWidth()], [GetHeight()] *)
Definition GetBaseX (p : Painter.Painter) : Z := Painter.fXBase p.
Definition GetWidth (p : Painter.Painter) : Z := Painter.fWidth p.
Definition GetHeight (p : Painter.Painter) : Z := Painter.fHeight p.

End PainterAccess.

(** ** Viewer: construction and destruction (Viewer.cxx, lines 28-66) *)

Module ViewerSetup.

Inductive Widget : Set := View | Scrollbar | StatusBar.

(** The calls the constructor and the destructor make, with the
    arguments they pass. *)
Inductive Setup : Set :=
| MainFrame (w h : Z)
| New (wd : Widget) (w h : Z)
| AddFrame (wd : Widget) (hints : Z)
| SetParts (parts : list Z)
| SetScrollbar
| SetStatusBar
| SetWindowName (title : list Byte.byte)
| MapSubwindows
| ResizeToDefaultSize
| MapWindow
| UpdateScrollbarRange
| AddInput (mask : Z)
| Cleanup
| Delete (wd : Widget).

Section Toolkit.

(** Of the toolkit: the layout hints, the default scrollbar width and
    the key press mask. *)
Variables kLHintsExpandX kLHintsExpandY kDefaultScrollBarWidth : Z.
Variable kKeyPressMask : Z.

(** [Viewer::Viewer(UInt_t w, UInt_t h, const char *title)] *)
Definition Viewer_ctor (w h : Z) (title : list Byte.byte) : list Setup :=
  [ MainFrame w h;
    New View (UInt32.sub w 4) (UInt32.sub h 4);
    AddFrame View (Z.lor kLHintsExpandX kLHintsExpandY);
    New Scrollbar 10 kDefaultScrollBarWidth;
    AddFrame Scrollbar kLHintsExpandX;
    New StatusBar 10 16;
    SetParts [20; 10; 70];
    AddFrame StatusBar kLHintsExpandX;
    SetScrollbar;
    SetStatusBar;
    SetWindowName title;
    MapSubwindows;
    ResizeToDefaultSize;
    MapWindow;
    UpdateScrollbarRange;
    AddInput kKeyPressMask ].

(** [Viewer::~Viewer()] *)
Definition Viewer_dtor : list Setup :=
  [ Cleanup; Delete View; Delete Scrollbar; Delete StatusBar ].

End Toolkit.

(** The size a widget is created with, if the calls create it. *)
Fixpoint created_size (wd : Widget) (l : list Setup) : option (Z * Z) :=
  match l with
  | [] => None
  | New wd' w h :: rest =>
      match wd, wd' with
      | View, View | Scrollbar, Scrollbar | StatusBar, StatusBar => Some (w, h)
      | _, _ => created_size wd rest
      end
  | _ :: rest => created_size wd rest
  end.

End ViewerSetup.

(** * Properties *)

(** ** Machine integers *)

Lemma wrap_wf (z : Z) : UInt32.wf (UInt32.wrap z).
Proof. unfold UInt32.wf, UInt32.wrap, UInt32.modulus. apply Z.mod_pos_bound. lia. Qed.

Lemma wrap_small (z : Z) : UInt32.wf z -> UInt32.wrap z = z.
Proof. unfold UInt32.wf, UInt32.wrap. intros H. apply Z.mod_small. exact H. Qed.

Lemma sub_borrow (a b : Z) :
  UInt32.wf a -> UInt32.wf b -> a < b ->
  UInt32.sub a b = a - b + UInt32.modulus.
Proof.
  unfold UInt32.wf, UInt32.sub, UInt32.wrap, UInt32.modulus. intros Ha Hb Hlt.
  symmetry. apply Z.mod_unique with (q := -1); lia.
Qed.

Lemma sub_no_borrow (a b : Z) :
  UInt32.wf a -> UInt32.wf b -> b <= a -> UInt32.sub a b = a - b.
Proof.
  unfold UInt32.wf, UInt32.sub. intros Ha Hb Hle. apply wrap_small.
  unfold UInt32.wf. lia.
Qed.

(** ** Double arithmetic on integers

    The conversions between integers and [double] and the difference of
    two integers are exact below [2^53]. *)

Lemma digits2_shift (p k : positive) :
  digits2_pos (Pos.iter xO p k) = (digits2_pos p + k)%positive.
Proof.
  apply (Pos.iter_ind _ xO p (fun k r => digits2_pos r = (digits2_pos p + k)%positive)).
  - simpl. lia.
  - intros q r IH. simpl. rewrite IH. lia.
Qed.

Lemma Zpos_shift (p k : positive) :
  Zpos (Pos.iter xO p k) = Zpos p * 2 ^ Zpos k.
Proof.
  change (Pos.iter xO p k) with (shift_pos k p).
  rewrite shift_pos_correct. rewrite Z.mul_comm. reflexivity.
Qed.

Lemma binary_round_aux_exact (s : bool) (m : positive) (e : Z) :
  digits2_pos m = 53%positive -> -1074 <= e <= 971 ->
  binary_round_aux Double.prec Double.emax s (Zpos m) e loc_Exact =
  S754_finite s m e.
Proof.
  intros Hd He.
  unfold binary_round_aux, shr_fexp, fexp, emin, Double.prec, Double.emax.
  simpl Zdigits2. rewrite Hd.
  replace (Z.max (53 + e - 53) (3 - 1024 - 53)) with e by lia.
  replace (e - e) with 0 by lia. simpl.
  rewrite Hd.
  replace (Z.max (53 + e - 53) (3 - 1024 - 53)) with e by lia.
  replace (e - e) with 0 by lia. simpl.
  destruct (Z.leb_spec e (1024 - 53)); [ reflexivity | lia ].
Qed.

Lemma binary_round_int (s : bool) (p : positive) :
  (digits2_pos p <= 53)%positive ->
  binary_round Double.prec Double.emax s p 0 =
  match Zpos (digits2_pos p) - 53 with
  | Zneg k => S754_finite s (Pos.iter xO p k) (Zneg k)
  | _ => S754_finite s p 0
  end.
Proof.
  intros Hd.
  unfold binary_round, shl_align, fexp, emin, Double.prec, Double.emax.
  replace (Z.max (Zpos (digits2_pos p) + 0 - 53) (3 - 1024 - 53))
    with (Zpos (digits2_pos p) - 53) by lia.
  replace (Zpos (digits2_pos p) - 53 - 0) with (Zpos (digits2_pos p) - 53) by lia.
  destruct (Zpos (digits2_pos p) - 53) as [ | q | k ] eqn:Hk.
  - apply binary_round_aux_exact; lia.
  - lia.
  - apply binary_round_aux_exact.
    + rewrite digits2_shift. lia.
    + lia.
Qed.

Lemma digits2_size (p : positive) : digits2_pos p = Pos.size p.
Proof. induction p as [ p IH | p IH | ]; simpl; congruence. Qed.

Lemma digits2_bound (p : positive) :
  Zpos p < 2 ^ 53 -> (digits2_pos p <= 53)%positive.
Proof.
  intros Hp. rewrite digits2_size.
  pose proof (Pos.size_le p) as Hle.
  apply Pos2Z.pos_le_pos in Hle. rewrite Pos2Z.inj_pow in Hle.
  change (Zpos p~0) with (2 * Zpos p) in Hle.
  destruct (Pos.leb_spec (Pos.size p) 53) as [ H | H ]; [ exact H | ].
  assert (2 ^ 54 <= 2 ^ Zpos (Pos.size p)) by (apply Z.pow_le_mono_r; lia).
  lia.
Qed.

Lemma trunc_binary_round_int (s : bool) (p : positive) :
  Zpos p < 2 ^ 53 ->
  Double.trunc (binary_round Double.prec Double.emax s p 0) =
  Some (cond_Zopp s (Zpos p)).
Proof.
  intros Hp. rewrite binary_round_int by (apply digits2_bound; exact Hp).
  destruct (Zpos (digits2_pos p) - 53) as [ | q | k ]; simpl.
  - rewrite Z.pow_0_r, Z.mul_1_r. reflexivity.
  - rewrite Z.pow_0_r, Z.mul_1_r. reflexivity.
  - rewrite Zpos_shift. change (Z.pow_pos 2 k) with (2 ^ Zpos k).
    rewrite Z.div_mul by (apply Z.pow_nonzero; lia). reflexivity.
Qed.

(** An integer below [2^53] in magnitude survives the conversion to
    [double] and back. *)
Lemma trunc_of_Z (z : Z) :
  - 2 ^ 53 < z < 2 ^ 53 -> Double.trunc (Double.of_Z z) = Some z.
Proof.
  intros Hz. destruct z as [ | p | p ].
  - reflexivity.
  - apply (trunc_binary_round_int false). lia.
  - apply (trunc_binary_round_int true). lia.
Qed.

Lemma to_int_of_Z (z : Z) :
  Int32.in_range z = true -> Double.to_int (Double.of_Z z) = Some z.
Proof.
  intros Hr. unfold Double.to_int. rewrite trunc_of_Z.
  - rewrite Hr. reflexivity.
  - unfold Int32.in_range, Int32.min_int, Int32.max_int in Hr.
    apply andb_true_iff in Hr. destruct Hr as [H1 H2].
    apply Z.leb_le in H1. apply Z.leb_le in H2. lia.
Qed.

(** [ceil] leaves the image of an integer as it is. *)
Lemma ceil_of_Z (z : Z) :
  - 2 ^ 53 < z < 2 ^ 53 -> Double.ceil (Double.of_Z z) = Double.of_Z z.
Proof.
  intros Hz. destruct z as [ | p | p ]; [ reflexivity | | ].
  - unfold Double.of_Z, binary_normalize.
    rewrite binary_round_int by (apply digits2_bound; lia).
    destruct (Zpos (digits2_pos p) - 53) as [ | q | k ] eqn:Hk;
      try reflexivity.
    unfold Double.ceil. change (0 <=? Zneg k) with false. cbv iota.
    change (- Zneg k) with (Zpos k). unfold cond_Zopp.
    rewrite Zpos_shift.
    replace (- (Zpos p * 2 ^ Zpos k)) with (- Zpos p * 2 ^ Zpos k) by lia.
    rewrite Z.div_mul by (apply Z.pow_nonzero; lia).
    replace (- - Zpos p) with (Zpos p) by lia.
    change (Zpos p =? 0) with false. cbv iota.
    unfold Double.of_Z, binary_normalize.
    rewrite binary_round_int by (apply digits2_bound; lia).
    rewrite Hk. reflexivity.
  - unfold Double.of_Z, binary_normalize.
    rewrite binary_round_int by (apply digits2_bound; lia).
    destruct (Zpos (digits2_pos p) - 53) as [ | q | k ] eqn:Hk;
      try reflexivity.
    unfold Double.ceil. change (0 <=? Zneg k) with false. cbv iota.
    change (- Zneg k) with (Zpos k). unfold cond_Zopp.
    rewrite Zpos_shift.
    replace (- - (Zpos p * 2 ^ Zpos k)) with (Zpos p * 2 ^ Zpos k) by lia.
    rewrite Z.div_mul by (apply Z.pow_nonzero; lia).
    change (- Zpos p =? 0) with false. cbv iota.
    change (- Zpos p) with (Zneg p).
    unfold Double.of_Z, binary_normalize.
    rewrite binary_round_int by (apply digits2_bound; lia).
    rewrite Hk. reflexivity.
Qed.

Lemma shr_1_even (p : positive) :
  shr_1 (Build_shr_record (Zpos (xO p)) false false) =
  Build_shr_record (Zpos p) false false.
Proof. reflexivity. Qed.

Lemma iter_shr_1_shift (k p : positive) :
  SpecFloat.iter_pos shr_1 k (Build_shr_record (Zpos (Pos.iter xO p k)) false false) =
  Build_shr_record (Zpos p) false false.
Proof.
  revert p. induction k as [ k IH | k IH | ]; intros p; simpl.
  - rewrite IH. rewrite IH. reflexivity.
  - rewrite IH. rewrite IH. reflexivity.
  - reflexivity.
Qed.

Lemma shr_exact_shift (m j : positive) (e : Z) :
  shr (shr_record_of_loc (Zpos (Pos.iter xO m j)) loc_Exact) e (Zpos j) =
  (Build_shr_record (Zpos m) false false, e + Zpos j).
Proof. unfold shr, shr_record_of_loc. rewrite iter_shr_1_shift. reflexivity. Qed.

Lemma binary_round_aux_shift (s : bool) (m j : positive) (e : Z) :
  digits2_pos m = 53%positive -> -1074 <= e <= 971 ->
  binary_round_aux Double.prec Double.emax s (Zpos (Pos.iter xO m j))
    (e - Zpos j) loc_Exact =
  S754_finite s m e.
Proof.
  intros Hd He.
  unfold binary_round_aux, shr_fexp at 1, fexp, emin, Double.prec, Double.emax.
  simpl Zdigits2. rewrite digits2_shift, Hd.
  replace (Z.max (Zpos (53 + j) + (e - Zpos j) - 53) (3 - 1024 - 53) -
           (e - Zpos j)) with (Zpos j) by lia.
  rewrite shr_exact_shift.
  replace (e - Zpos j + Zpos j) with e by lia.
  cbn [shr_m loc_of_shr_record round_nearest_even].
  unfold shr_fexp, fexp, emin. simpl Zdigits2. rewrite Hd.
  replace (Z.max (53 + e - 53) (3 - 1024 - 53)) with e by lia.
  replace (e - e) with 0 by lia. simpl.
  destruct (Z.leb_spec e (1024 - 53)); [ reflexivity | lia ].
Qed.

Lemma binary_round_scaled (s : bool) (q n : positive) :
  (digits2_pos q <= 53)%positive ->
  binary_round Double.prec Double.emax s (Pos.iter xO q n) (Zneg n) =
  binary_round Double.prec Double.emax s q 0.
Proof.
  intros Hd. rewrite (binary_round_int s q Hd).
  unfold binary_round, shl_align, fexp, emin, Double.prec, Double.emax.
  rewrite digits2_shift.
  replace (Z.max (Zpos (digits2_pos q + n) + Zneg n - 53) (3 - 1024 - 53))
    with (Zpos (digits2_pos q) - 53) by lia.
  destruct (Zpos (digits2_pos q) - 53) as [ | t | k ] eqn:Ht.
  - change (0 - Zneg n) with (Zpos n). cbv iota.
    replace (Zneg n) with (0 - Zpos n) by lia.
    apply binary_round_aux_shift; lia.
  - lia.
  - destruct (Zneg k - Zneg n) as [ | j | d ] eqn:Hc.
    + assert (n = k) as -> by lia.
      apply binary_round_aux_exact; [ rewrite digits2_shift | ]; lia.
    + assert (n = (j + k)%positive) as -> by lia.
      rewrite Pos.iter_add.
      replace (Zneg (j + k)) with (Zneg k - Zpos j) by lia.
      apply binary_round_aux_shift; [ rewrite digits2_shift | ]; lia.
    + assert (k = (d + n)%positive) as -> by lia.
      rewrite <- Pos.iter_add.
      apply binary_round_aux_exact; [ rewrite digits2_shift | ]; lia.
Qed.

(** Scaling an integer by a power of two and compensating in the
    exponent does not change the double it normalises to. *)
Lemma normalize_scaled (z n : Z) :
  0 <= n -> - 2 ^ 53 < z < 2 ^ 53 ->
  binary_normalize Double.prec Double.emax (z * 2 ^ n) (- n) false =
  Double.of_Z z.
Proof.
  intros Hn Hz. destruct n as [ | n | n ]; [ | | lia ].
  - rewrite Z.pow_0_r, Z.mul_1_r. reflexivity.
  - destruct z as [ | q | q ].
    + reflexivity.
    + rewrite <- Zpos_shift. unfold Double.of_Z, binary_normalize.
      change (- Zpos n) with (Zneg n).
      apply binary_round_scaled. apply digits2_bound. lia.
    + replace (Zneg q * 2 ^ Zpos n) with (- (Zpos q * 2 ^ Zpos n)) by lia.
      rewrite <- Zpos_shift. unfold Double.of_Z, binary_normalize.
      change (- Zpos (Pos.iter xO q n)) with (Zneg (Pos.iter xO q n)).
      change (- Zpos n) with (Zneg n). cbv iota.
      apply binary_round_scaled. apply digits2_bound. lia.
Qed.

(** The image of a positive integer below [2^53]: a mantissa and a
    non-positive exponent that denote it exactly. *)
Lemma of_Z_pos_repr (p : positive) :
  Zpos p < 2 ^ 53 ->
  exists (m : positive) (e : Z),
    Double.of_Z (Zpos p) = S754_finite false m e /\
    e <= 0 /\ Zpos m = Zpos p * 2 ^ (- e).
Proof.
  intros Hp. unfold Double.of_Z, binary_normalize.
  rewrite binary_round_int by (apply digits2_bound; exact Hp).
  destruct (Zpos (digits2_pos p) - 53) as [ | t | k ].
  - exists p, 0. repeat split; [ lia | simpl; lia ].
  - exists p, 0. repeat split; [ lia | simpl; lia ].
  - exists (Pos.iter xO p k), (Zneg k). repeat split; [ lia | ].
    rewrite Zpos_shift. reflexivity.
Qed.

Lemma shl_align_value (m : positive) (e ez : Z) :
  ez <= e ->
  Zpos (fst (shl_align m e ez)) = Zpos m * 2 ^ (e - ez).
Proof.
  intros Hle. unfold shl_align.
  destruct (ez - e) as [ | d | d ] eqn:Hd.
  - replace (e - ez) with 0 by lia. simpl. lia.
  - lia.
  - cbn [fst]. rewrite Zpos_shift. replace (e - ez) with (Zpos d) by lia.
    reflexivity.
Qed.

(** The difference of two integers [0 <= b <= a < 2^53] is computed
    exactly. *)
Lemma sub_of_Z (a b : Z) :
  0 <= b -> b <= a -> a < 2 ^ 53 ->
  Double.sub (Double.of_Z a) (Double.of_Z b) = Double.of_Z (a - b).
Proof.
  intros Hb Hab Ha.
  destruct b as [ | pb | pb ]; [ | | lia ].
  - rewrite Z.sub_0_r. destruct a as [ | pa | pa ]; [ reflexivity | | lia ].
    destruct (of_Z_pos_repr pa Ha) as (m & e & -> & _). reflexivity.
  - destruct a as [ | pa | pa ]; [ lia | | lia ].
    destruct (of_Z_pos_repr pa Ha) as (ma & ea & -> & Hea & Hma).
    destruct (of_Z_pos_repr pb) as (mb & eb & -> & Heb & Hmb); [ lia | ].
    unfold Double.sub, SFsub. unfold cond_Zopp.
    rewrite !shl_align_value by lia.
    rewrite Hma, Hmb.
    rewrite <- !Z.mul_assoc, <- !Z.pow_add_r by lia.
    replace (- ea + (ea - Z.min ea eb)) with (- Z.min ea eb) by lia.
    replace (- eb + (eb - Z.min ea eb)) with (- Z.min ea eb) by lia.
    rewrite <- Z.mul_sub_distr_r.
    replace (Z.min ea eb) with (- - Z.min ea eb) at 2 by lia.
    apply normalize_scaled; lia.
Qed.

Lemma Qceiling_inject (z : Z) : Qceiling (inject_Z z) = z.
Proof.
  unfold Qceiling, Qfloor. cbn. rewrite Z.div_1_r. lia.
Qed.

Lemma trunc_ceil_finite (s : bool) (m : positive) (e : Z) :
  Zpos m < 2 ^ 53 ->
  Double.trunc (Double.ceil (S754_finite s m e)) =
  option_map Qceiling (Double.to_Q (S754_finite s m e)).
Proof.
  intros Hm. unfold Double.to_Q, option_map, Double.ceil.
  destruct e as [ | k | k ].
  - simpl. rewrite Qceiling_inject. reflexivity.
  - change (0 <=? Zpos k) with true. cbv iota.
    rewrite Qceiling_inject. reflexivity.
  - change (0 <=? Zneg k) with false. cbv iota.
    change (- Zneg k) with (Zpos k).
    assert (Qceiling (cond_Zopp s (Zpos m) # 2 ^ k) =
            - (- cond_Zopp s (Zpos m) / 2 ^ Zpos k)) as ->.
    { unfold Qceiling, Qfloor. cbn. rewrite Pos2Z.inj_pow. reflexivity. }
    set (c := - (- cond_Zopp s (Zpos m) / 2 ^ Zpos k)).
    assert (- 2 ^ 53 < c < 2 ^ 53) as Hc.
    { subst c. assert (0 < 2 ^ Zpos k) by (apply Z.pow_pos_nonneg; lia).
      assert (2 <= 2 ^ Zpos k).
      { change 2 with (2 ^ 1) at 1. apply Z.pow_le_mono_r; lia. }
      destruct s; unfold cond_Zopp.
      - rewrite Z.opp_involutive.
        pose proof (Z.div_pos (Zpos m) (2 ^ Zpos k)).
        assert (Zpos m / 2 ^ Zpos k <= Zpos m) by (apply Z.div_le_upper_bound; nia).
        lia.
      - assert (- Zpos m <= - Zpos m / 2 ^ Zpos k)
          by (apply Z.div_le_lower_bound; nia).
        assert (- Zpos m / 2 ^ Zpos k < 0) by (apply Z.div_lt_upper_bound; lia).
        lia. }
    destruct (Z.eqb_spec c 0) as [ -> | Hne ].
    + reflexivity.
    + apply trunc_of_Z. exact Hc.
Qed.

Lemma valid_mantissa (s : bool) (m : positive) (e : Z) :
  Double.valid (S754_finite s m e) = true -> Zpos m < 2 ^ 53.
Proof.
  unfold Double.valid, valid_binary, bounded, canonical_mantissa, fexp, emin,
    Double.prec, Double.emax.
  intros H. apply andb_true_iff in H. destruct H as [H _].
  apply Z.eqb_eq in H.
  assert (Zpos (digits2_pos m) <= 53) as Hd by lia.
  rewrite digits2_size in Hd.
  pose proof (Pos.size_gt m) as Hgt.
  apply Pos2Z.pos_lt_pos in Hgt. rewrite Pos2Z.inj_pow in Hgt.
  assert (2 ^ Zpos (Pos.size m) <= 2 ^ 53) by (apply Z.pow_le_mono_r; lia).
  lia.
Qed.

(** [(int) ceil(d)] is the least integer not below [d], whenever that
    integer is an [int]. *)
Lemma to_int_ceil (d : double) :
  Double.valid d = true -> Double.to_int (Double.ceil d) = Double.ceiling_int d.
Proof.
  intros Hv. unfold Double.to_int, Double.ceiling_int.
  destruct d as [ s | s | | s m e ]; try reflexivity.
  rewrite trunc_ceil_finite by (eapply valid_mantissa; exact Hv).
  reflexivity.
Qed.

(** ** Painter: coordinate transforms *)

Lemma geb_le (a b : Z) : UInt32.geb a b = true <-> b <= a.
Proof. unfold UInt32.geb. apply Z.leb_le. Qed.

Lemma leb_le (a b : Z) : UInt32.leb a b = true <-> a <= b.
Proof. unfold UInt32.leb. apply Z.leb_le. Qed.

(** C1: the transforms are the formulas of the specification.
    [XtoE(double)] is [(x - xBase) / xZoom + xOffset] for every [x];
    [EtoX] is [ceil((e - xOffset) * xZoom + xBase - 0.5)], converted to
    [int], for every [e], that is the least integer not below the biased
    pixel position; and a painter of width 400 with base point and
    offset 0, once its visible region is set to 100, has zoom 4 and maps
    pixel 40 to energy 10.0 (with either overload of [XtoE]); there
    energy 10.0 maps back to pixel 40 and energy 9.875, whose image 39.5
    lies half way, to pixel 39. *)
Theorem transforms_match_spec :
  (forall (p : Painter.Painter) (x : double),
     Painter.XtoE_double p x =
     Painter.xToEnergy_spec (Painter.fXBase p) (Painter.fXZoom p)
       (Painter.fXOffset p) x) /\
  (forall (p : Painter.Painter) (e : double),
     Painter.EtoX p e =
     Double.to_int
       (Painter.energyToX_spec (Painter.fXBase p) (Painter.fXZoom p)
          (Painter.fXOffset p) e)) /\
  (forall (p : Painter.Painter) (e : double),
     Double.valid
       (Painter.biased_pixel (Painter.fXBase p) (Painter.fXZoom p)
          (Painter.fXOffset p) e) = true ->
     Painter.EtoX p e =
     Double.ceiling_int
       (Painter.biased_pixel (Painter.fXBase p) (Painter.fXZoom p)
          (Painter.fXOffset p) e)) /\
  (forall p : Painter.Painter,
     Painter.fWidth p = 400 ->
     Painter.fXBase p = 0 ->
     Painter.fXOffset p = Double.zero ->
     let p' := Painter.SetXVisibleRegion (Double.of_Z 100) p in
     Painter.fXZoom p' = Double.of_Z 4 /\
     Painter.XtoE_double p' (Double.of_Z 40) = Double.of_Z 10 /\
     Painter.XtoE_UInt_t p' 40 = Double.of_Z 10 /\
     Painter.EtoX p' (Double.of_Z 10) = Some 40 /\
     Painter.EtoX p' (Double.div (Double.of_Z 79) (Double.of_Z 8)) = Some 39).
Proof.
  split; [ | split; [ | split ] ].
  - intros p x. reflexivity.
  - intros p e. reflexivity.
  - intros p e Hv. unfold Painter.EtoX.
    exact (to_int_ceil _ Hv).
  - intros [xz yz xv yv xo yo l xb yb w h vm d a c f fs] Hw Hb Ho.
    simpl in Hw, Hb, Ho. subst w xb xo.
    unfold Painter.XtoE_double, Painter.XtoE_UInt_t, Painter.EtoX,
      Painter.SetXVisibleRegion.
    simpl. repeat split; vm_compute; reflexivity.
Qed.

Lemma transforms_match_spec_witness :
  Painter.fXZoom
    (Painter.SetXVisibleRegion (Double.of_Z 100) Painter.sample_origin) =
  Double.of_Z 4 /\
  Painter.XtoE_double
    (Painter.SetXVisibleRegion (Double.of_Z 100) Painter.sample_origin)
    (Double.of_Z 40) = Double.of_Z 10 /\
  Painter.XtoE_UInt_t
    (Painter.SetXVisibleRegion (Double.of_Z 100) Painter.sample_origin) 40 =
  Double.of_Z 10 /\
  Painter.EtoX
    (Painter.SetXVisibleRegion (Double.of_Z 100) Painter.sample_origin)
    (Double.of_Z 10) = Some 40 /\
  Painter.EtoX
    (Painter.SetXVisibleRegion (Double.of_Z 100) Painter.sample_origin)
    (Double.div (Double.of_Z 79) (Double.of_Z 8)) = Some 39.
Proof.
  apply (proj2 (proj2 (proj2 transforms_match_spec)) Painter.sample_origin);
    reflexivity.
Defined.

Lemma XtoE_overloads_agree (p : Painter.Painter) (x : Z) :
  Painter.wf p -> UInt32.wf x -> Painter.fXBase p <= x ->
  Painter.XtoE_UInt_t p x = Painter.XtoE_double p (Double.of_Z x).
Proof.
  intros (Hb & _) Hx Hle. unfold UInt32.wf, UInt32.modulus in Hb, Hx.
  unfold Painter.XtoE_UInt_t, Painter.XtoE_double.
  rewrite sub_no_borrow by (unfold UInt32.wf, UInt32.modulus; lia).
  rewrite sub_of_Z by lia. reflexivity.
Qed.

Lemma XtoE_UInt_t_wraps (p : Painter.Painter) (x : Z) :
  Painter.wf p -> UInt32.wf x -> x < Painter.fXBase p ->
  Painter.XtoE_UInt_t p x = Painter.XtoE_double p (Double.of_Z (x + 2 ^ 32)).
Proof.
  intros (Hb & _) Hx Hlt. unfold UInt32.wf, UInt32.modulus in Hb, Hx.
  unfold Painter.XtoE_UInt_t, Painter.XtoE_double.
  rewrite sub_borrow by (unfold UInt32.wf, UInt32.modulus; lia).
  rewrite sub_of_Z by lia. unfold UInt32.modulus. f_equal. f_equal. f_equal. lia.
Qed.

(** C4: the integer overload of [XtoE] gives the value of the
    double-precision formula for every pixel at or right of the base
    point, but for a pixel [x < xBase] it gives the value the formula has
    at [x + 2^32], because the difference [x - fXBase] wraps before it is
    converted: on the sample painter (base point 10, zoom 1, offset 0)
    pixel 5 maps to 4294967291.0 where the formula gives -5.0. *)
Theorem XtoE_UInt_t_left_of_base :
  (forall (p : Painter.Painter) (x : Z),
     Painter.wf p -> UInt32.wf x -> Painter.fXBase p <= x ->
     Painter.XtoE_UInt_t p x = Painter.XtoE_double p (Double.of_Z x)) /\
  (forall (p : Painter.Painter) (x : Z),
     Painter.wf p -> UInt32.wf x -> x < Painter.fXBase p ->
     Painter.XtoE_UInt_t p x =
     Painter.XtoE_double p (Double.of_Z (x + 2 ^ 32))) /\
  Painter.XtoE_UInt_t Painter.sample 5 = Double.of_Z 4294967291 /\
  Painter.XtoE_double Painter.sample (Double.of_Z 5) = Double.of_Z (-5) /\
  Painter.XtoE_UInt_t Painter.sample 5 <>
  Painter.XtoE_double Painter.sample (Double.of_Z 5).
Proof.
  split; [ exact XtoE_overloads_agree | ].
  split; [ exact XtoE_UInt_t_wraps | ].
  repeat split; try (vm_compute; reflexivity).
  vm_compute. discriminate.
Qed.

Lemma XtoE_UInt_t_left_of_base_witness :
  Painter.XtoE_UInt_t Painter.sample 5 =
  Painter.XtoE_double Painter.sample (Double.of_Z (5 + 2 ^ 32)).
Proof.
  apply (proj1 (proj2 XtoE_UInt_t_left_of_base) Painter.sample 5).
  - unfold Painter.wf, UInt32.wf, UInt32.modulus. simpl. lia.
  - unfold UInt32.wf, UInt32.modulus. lia.
  - simpl. lia.
Defined.

Lemma Qceiling_minus_half (x : Z) : Qceiling (inject_Z x - (1 # 2)) = x.
Proof.
  unfold Qceiling, Qfloor. cbn.
  apply Z.opp_inj. rewrite Z.opp_involutive. symmetry.
  apply Z.div_unique with (r := 1); lia.
Qed.

(** Without rounding and without wrap-around the round trip returns the
    pixel itself, for every zoom other than 0. *)
Lemma round_trip_exact (xBase : Z) (xZoom xOffset : Q) (x : Z) :
  ~ (xZoom == 0)%Q ->
  Painter.energyToX_exact xBase xZoom xOffset
    (Painter.xToEnergy_exact xBase xZoom xOffset x) = x.
Proof.
  intros Hz. unfold Painter.energyToX_exact, Painter.xToEnergy_exact.
  rewrite <- (Qceiling_minus_half x) at 2.
  apply Qceiling_comp. field. exact Hz.
Qed.

(** C2: the round trip of an integer pixel through the integer overload
    of [XtoE] and [EtoX] does not stay within one pixel left of the base
    point. There [XtoE] returns the energy of pixel [x + 2^32]; on the
    sample painter (zoom 1 > 0, as [SetXVisibleRegion] establishes it
    from region 400 and width 400) pixel 5 has energy 4294967291.0, the
    rounded pixel value is 4294967301, which no [int] holds, so [EtoX]
    yields no pixel within one of 5; a pixel right of the base point
    (15) and the double overload at 5 come back exactly. *)
Theorem round_trip_left_of_base :
  (forall (p : Painter.Painter) (x : Z),
     Painter.wf p -> UInt32.wf x -> x < Painter.fXBase p ->
     Painter.XtoE_UInt_t p x =
     Painter.XtoE_double p (Double.of_Z (x + 2 ^ 32))) /\
  Painter.SetXVisibleRegion (Double.of_Z 400) Painter.sample = Painter.sample /\
  Double.ltb Double.zero (Painter.fXZoom Painter.sample) = true /\
  Painter.XtoE_UInt_t Painter.sample 5 = Double.of_Z 4294967291 /\
  Double.trunc
    (Painter.energyToX_spec (Painter.fXBase Painter.sample)
       (Painter.fXZoom Painter.sample) (Painter.fXOffset Painter.sample)
       (Painter.XtoE_UInt_t Painter.sample 5)) = Some 4294967301 /\
  Painter.EtoX Painter.sample (Painter.XtoE_UInt_t Painter.sample 5) = None /\
  ~ (exists z : Z,
       Painter.EtoX Painter.sample (Painter.XtoE_UInt_t Painter.sample 5)
       = Some z /\ Z.abs (z - 5) <= 1) /\
  Painter.EtoX Painter.sample (Painter.XtoE_UInt_t Painter.sample 15) = Some 15 /\
  Painter.EtoX Painter.sample
    (Painter.XtoE_double Painter.sample (Double.of_Z 5)) = Some 5.
Proof.
  split; [ exact XtoE_UInt_t_wraps | ].
  assert (Painter.EtoX Painter.sample (Painter.XtoE_UInt_t Painter.sample 5)
          = None) as Hnone by (vm_compute; reflexivity).
  repeat split; try (vm_compute; reflexivity).
  rewrite Hnone. intros (z & Hz & _). discriminate Hz.
Qed.

Lemma round_trip_left_of_base_witness :
  Painter.XtoE_UInt_t Painter.sample 7 =
  Painter.XtoE_double Painter.sample (Double.of_Z (7 + 2 ^ 32)).
Proof.
  apply (proj1 round_trip_left_of_base Painter.sample 7).
  - unfold Painter.wf, UInt32.wf, UInt32.modulus. simpl. lia.
  - unfold UInt32.wf, UInt32.modulus. lia.
  - simpl. lia.
Defined.

(** C10: [IsWithin(x, y)] holds exactly when
    [xBase <= x <= xBase + width] and [yBase - height <= y <= yBase],
    bounds included, the sum and the difference being [UInt_t] values
    (reduced modulo 2^32): the sum is [xBase + width] itself as long as
    that is below 2^32, and the difference is [yBase - height] when
    [height <= yBase] and [yBase - height + 2^32] when
    [height > yBase]. *)
Theorem IsWithin_spec :
  (forall (p : Painter.Painter) (x y : Z),
     Painter.IsWithin p x y = true <->
     Painter.fXBase p <= x /\
     x <= (Painter.fXBase p + Painter.fWidth p) mod 2 ^ 32 /\
     (Painter.fYBase p - Painter.fHeight p) mod 2 ^ 32 <= y /\
     y <= Painter.fYBase p) /\
  (forall p : Painter.Painter,
     Painter.wf p ->
     Painter.fYBase p < Painter.fHeight p ->
     (Painter.fYBase p - Painter.fHeight p) mod 2 ^ 32 =
     Painter.fYBase p - Painter.fHeight p + 2 ^ 32) /\
  (forall p : Painter.Painter,
     Painter.wf p ->
     Painter.fHeight p <= Painter.fYBase p ->
     (Painter.fYBase p - Painter.fHeight p) mod 2 ^ 32 =
     Painter.fYBase p - Painter.fHeight p) /\
  (forall p : Painter.Painter,
     Painter.wf p ->
     Painter.fXBase p + Painter.fWidth p < 2 ^ 32 ->
     (Painter.fXBase p + Painter.fWidth p) mod 2 ^ 32 =
     Painter.fXBase p + Painter.fWidth p).
Proof.
  split; [ | split; [ | split ] ].
  - intros p x y. unfold Painter.IsWithin.
    rewrite !andb_true_iff, !geb_le, !leb_le.
    unfold UInt32.add, UInt32.sub, UInt32.wrap, UInt32.modulus. tauto.
  - intros p (_ & Hy & _ & Hh) Hlt.
    exact (sub_borrow _ _ Hy Hh Hlt).
  - intros p (_ & Hy & _ & Hh) Hle.
    exact (sub_no_borrow _ _ Hy Hh Hle).
  - intros p (Hx & _ & Hw & _) Hlt.
    unfold UInt32.wf, UInt32.modulus in Hx, Hw.
    apply Z.mod_small. lia.
Qed.

Lemma IsWithin_spec_witness :
  (Painter.fYBase Painter.sample_tall - Painter.fHeight Painter.sample_tall)
    mod 2 ^ 32 =
  Painter.fYBase Painter.sample_tall - Painter.fHeight Painter.sample_tall
  + 2 ^ 32.
Proof.
  apply (proj1 (proj2 IsWithin_spec) Painter.sample_tall).
  - unfold Painter.wf, UInt32.wf, UInt32.modulus. simpl. lia.
  - simpl. lia.
Defined.

(** ** Painter: the zoom invariants *)

Section ZoomInvariants.

Variable yZoomFor : double -> double -> bool -> Z -> double.

Let run := Painter.run yZoomFor.

Lemma SetXVisibleRegion_establishes (xv : double) (p : Painter.Painter) :
  Painter.XZoomInv (Painter.SetXVisibleRegion xv p).
Proof. reflexivity. Qed.

Lemma SetSize_establishes (w h : Z) (p : Painter.Painter) :
  Painter.XZoomInv (Painter.SetSize yZoomFor w h p).
Proof. reflexivity. Qed.

Lemma other_ops_keep_x_geometry (op : Painter.Op) (p : Painter.Painter) :
  Painter.assigns_xzoom op = false ->
  Painter.fXZoom (run op p) = Painter.fXZoom p /\
  Painter.fWidth (run op p) = Painter.fWidth p /\
  Painter.fXVisibleRegion (run op p) = Painter.fXVisibleRegion p.
Proof.
  destruct op; simpl; intros H; try discriminate H; repeat split.
Qed.

(** C3: [xZoom = width / xVisibleRegion] is kept by every state-changing
    operation of the painter: [SetXVisibleRegion] and [SetSize] establish
    it from any state, they are the only operations that assign [fXZoom],
    and every other operation leaves [fXZoom], [fWidth] and
    [fXVisibleRegion] as they are. *)
Theorem xzoom_invariant :
  (forall (xv : double) (p : Painter.Painter),
     Painter.XZoomInv (Painter.SetXVisibleRegion xv p)) /\
  (forall (w h : Z) (p : Painter.Painter),
     Painter.XZoomInv (Painter.SetSize yZoomFor w h p)) /\
  (forall (op : Painter.Op) (p : Painter.Painter),
     Painter.assigns_xzoom op = false ->
     Painter.fXZoom (Painter.run yZoomFor op p) = Painter.fXZoom p /\
     Painter.fWidth (Painter.run yZoomFor op p) = Painter.fWidth p /\
     Painter.fXVisibleRegion (Painter.run yZoomFor op p) =
     Painter.fXVisibleRegion p) /\
  (forall (op : Painter.Op) (p : Painter.Painter),
     Painter.XZoomInv p -> Painter.XZoomInv (Painter.run yZoomFor op p)).
Proof.
  split; [ exact SetXVisibleRegion_establishes | ].
  split; [ exact SetSize_establishes | ].
  split; [ exact other_ops_keep_x_geometry | ].
  intros op p Hinv.
  destruct (Painter.assigns_xzoom op) eqn:Hop.
  - destruct op; try discriminate Hop.
    + apply SetXVisibleRegion_establishes.
    + apply SetSize_establishes.
  - destruct (other_ops_keep_x_geometry op p Hop) as (Hz & Hw & Hv).
    unfold Painter.XZoomInv. fold run. rewrite Hz, Hw, Hv. exact Hinv.
Qed.

End ZoomInvariants.

Lemma xzoom_invariant_witness :
  Painter.XZoomInv
    (Painter.run Painter.linear_yzoom (Painter.OpSetBasePoint 20 320)
       Painter.sample).
Proof.
  apply (proj2 (proj2 (proj2 (xzoom_invariant Painter.linear_yzoom)))).
  vm_compute. reflexivity.
Defined.

(** ** Viewer: event forwarding *)

Section ViewerForwarding.

Variables GET_MSG GET_SUBMSG : Z -> Z.
Variables kC_HSCROLL kSB_SLIDERTRACK kGKeyPress : Z.

Let HandleKey := Viewer.HandleKey kGKeyPress.
Let ProcessMessage_statements :=
  Viewer.ProcessMessage_statements GET_MSG GET_SUBMSG kC_HSCROLL
    kSB_SLIDERTRACK.

Lemma ProcessMessage_statements_calls (msg parm1 parm2 : Z) :
  Viewer.calls (ProcessMessage_statements msg parm1 parm2) =
  if (GET_MSG msg =? kC_HSCROLL) && (GET_SUBMSG msg =? kSB_SLIDERTRACK)
  then [Viewer.CallHandleScrollbar parm1] else [].
Proof.
  unfold ProcessMessage_statements, Viewer.ProcessMessage_statements.
  destruct (GET_MSG msg =? kC_HSCROLL), (GET_SUBMSG msg =? kSB_SLIDERTRACK);
    reflexivity.
Qed.

Lemma HandleKey_calls (ev : Viewer.Event_t) :
  Viewer.calls (HandleKey ev) =
  if Viewer.fType ev =? kGKeyPress
  then [Viewer.CallLookupString ev; Viewer.CallKeyPressed] else [].
Proof.
  unfold HandleKey, Viewer.HandleKey.
  destruct (Viewer.fType ev =? kGKeyPress); reflexivity.
Qed.

(** C9: [ProcessMessage] is declared [Bool_t] and its body has no
    [return] statement, so every call of it, whatever the message, runs
    off the end of the function: its behaviour is undefined and the
    forwarding is not guaranteed. The statements of the body make at most
    one call, [fView->HandleScrollbar(parm1)], exactly when the message
    is [kC_HSCROLL] with submessage [kSB_SLIDERTRACK]. [HandleKey]
    returns true for every event and calls [KeyPressed] exactly when the
    event type is [kGKeyPress]. *)
Theorem viewer_forwards_events :
  (forall msg parm1 parm2 : Z,
     Viewer.ProcessMessage GET_MSG GET_SUBMSG kC_HSCROLL kSB_SLIDERTRACK
       msg parm1 parm2 = None) /\
  (forall (msg parm1 parm2 : Z) (c : Viewer.Call),
     In c (Viewer.calls
             (Viewer.ProcessMessage_statements GET_MSG GET_SUBMSG kC_HSCROLL
                kSB_SLIDERTRACK msg parm1 parm2)) <->
     c = Viewer.CallHandleScrollbar parm1 /\
     GET_MSG msg = kC_HSCROLL /\ GET_SUBMSG msg = kSB_SLIDERTRACK) /\
  (forall msg parm1 parm2 : Z,
     (length (Viewer.calls
                (Viewer.ProcessMessage_statements GET_MSG GET_SUBMSG
                   kC_HSCROLL kSB_SLIDERTRACK msg parm1 parm2)) <= 1)%nat) /\
  (forall ev : Viewer.Event_t,
     Viewer.result (Viewer.HandleKey kGKeyPress ev) = true /\
     (In Viewer.CallKeyPressed (Viewer.calls (Viewer.HandleKey kGKeyPress ev))
      <-> Viewer.fType ev = kGKeyPress)).
Proof.
  split; [ intros msg parm1 parm2; reflexivity | ].
  split; [ | split ].
  - intros msg parm1 parm2 c. fold ProcessMessage_statements.
    rewrite ProcessMessage_statements_calls.
    destruct (Z.eqb_spec (GET_MSG msg) kC_HSCROLL) as [Hm | Hm];
      destruct (Z.eqb_spec (GET_SUBMSG msg) kSB_SLIDERTRACK) as [Hs | Hs];
      simpl; split; try tauto.
    + intros [<- | []]. auto.
    + intros (-> & _). left. reflexivity.
  - intros msg parm1 parm2. fold ProcessMessage_statements.
    rewrite ProcessMessage_statements_calls.
    destruct (_ && _); simpl; lia.
  - intros ev. fold HandleKey. split.
    + unfold HandleKey, Viewer.HandleKey.
      destruct (Viewer.fType ev =? kGKeyPress); reflexivity.
    + rewrite HandleKey_calls.
      destruct (Z.eqb_spec (Viewer.fType ev) kGKeyPress) as [Hk | Hk]; simpl.
      * split; auto.
      * split; [ intros [] | intros H; contradiction ].
Qed.

End ViewerForwarding.

(** ** Viewport: allocation of object ids *)

Section CollectionFacts.

Context {A : Type}.

Implicit Types (items : GSViewport.Items A) (x y : A) (i j : nat).

Lemma first_vacant_le items :
  (GSViewport.first_vacant items <= length items)%nat.
Proof.
  induction items as [ | [a | ] rest IH ]; simpl; lia.
Qed.

Lemma first_vacant_lookup items :
  (GSViewport.first_vacant items < length items)%nat ->
  items !! GSViewport.first_vacant items = Some None.
Proof.
  induction items as [ | [a | ] rest IH ]; simpl; intros H.
  - lia.
  - apply IH. lia.
  - reflexivity.
Qed.

Lemma first_vacant_lowest items j :
  (j < GSViewport.first_vacant items)%nat ->
  exists y, items !! j = Some (Some y).
Proof.
  revert j. induction items as [ | [a | ] rest IH ]; simpl; intros j H.
  - lia.
  - destruct j as [ | j ]; simpl.
    + exists a. reflexivity.
    + apply IH. lia.
  - lia.
Qed.

Lemma first_vacant_occupied items j y :
  items !! j = Some (Some y) -> j <> GSViewport.first_vacant items.
Proof.
  intros Hj Heq. subst j.
  rewrite first_vacant_lookup in Hj.
  - discriminate Hj.
  - apply lookup_lt_Some in Hj. exact Hj.
Qed.

Lemma first_vacant_app_vacant items :
  GSViewport.first_vacant (items ++ [None]) = GSViewport.first_vacant items.
Proof.
  induction items as [ | [a | ] rest IH ]; simpl; congruence.
Qed.

Lemma FindFreeId_id items :
  fst (GSViewport.FindFreeId items) = GSViewport.first_vacant items.
Proof. reflexivity. Qed.

(** After [FindFreeId] the slot of the id exists and is vacant, the
    slots present before are as they were, and the id is still the
    first vacant one. *)
Lemma FindFreeId_slot items :
  snd (GSViewport.FindFreeId items) !! GSViewport.first_vacant items
  = Some None.
Proof.
  unfold GSViewport.FindFreeId. cbn [snd].
  destruct (Nat.ltb_spec (GSViewport.first_vacant items) (length items))
    as [Hlt | Hge].
  - apply first_vacant_lookup. exact Hlt.
  - assert (GSViewport.first_vacant items = length items) as ->
      by (pose proof (first_vacant_le items); lia).
    rewrite lookup_app_r by lia. rewrite Nat.sub_diag. reflexivity.
Qed.

Lemma FindFreeId_keeps items j o :
  items !! j = Some o -> snd (GSViewport.FindFreeId items) !! j = Some o.
Proof.
  intros Hj. unfold GSViewport.FindFreeId. cbn [snd].
  destruct (_ <? _)%nat.
  - exact Hj.
  - apply lookup_app_l_Some. exact Hj.
Qed.

Lemma FindFreeId_first_vacant items :
  GSViewport.first_vacant (snd (GSViewport.FindFreeId items)) =
  GSViewport.first_vacant items.
Proof.
  unfold GSViewport.FindFreeId. cbn [snd].
  destruct (_ <? _)%nat.
  - reflexivity.
  - apply first_vacant_app_vacant.
Qed.

Lemma AddItem_unfold x items :
  GSViewport.AddItem x items =
  (GSViewport.first_vacant items,
   <[GSViewport.first_vacant items := Some x]>
     (snd (GSViewport.FindFreeId items))).
Proof. reflexivity. Qed.

Lemma AddItem_stores x items :
  GSViewport.GetItem (snd (GSViewport.AddItem x items))
    (fst (GSViewport.AddItem x items)) = Some x.
Proof.
  rewrite AddItem_unfold. cbn [fst snd]. unfold GSViewport.GetItem.
  rewrite list_lookup_insert_eq.
  - reflexivity.
  - eapply lookup_lt_Some. apply FindFreeId_slot.
Qed.

Lemma GetItem_Some items j y :
  GSViewport.GetItem items j = Some y <-> items !! j = Some (Some y).
Proof.
  unfold GSViewport.GetItem.
  destruct (items !! j) as [ [a | ] | ]; split; congruence.
Qed.

Lemma AddItem_keeps x items j y :
  GSViewport.GetItem items j = Some y ->
  GSViewport.GetItem (snd (GSViewport.AddItem x items)) j = Some y.
Proof.
  rewrite !GetItem_Some. intros Hj.
  rewrite AddItem_unfold. cbn [fst snd].
  rewrite list_lookup_insert_ne.
  - apply FindFreeId_keeps. exact Hj.
  - apply not_eq_sym. eapply first_vacant_occupied. exact Hj.
Qed.

Lemma DeleteItem_keeps items i j y :
  i <> j ->
  GSViewport.GetItem items j = Some y ->
  GSViewport.GetItem (GSViewport.DeleteItem items i) j = Some y.
Proof.
  rewrite !GetItem_Some. intros Hne Hj. unfold GSViewport.DeleteItem.
  rewrite list_lookup_insert_ne by exact Hne. exact Hj.
Qed.

Lemma DeleteItem_frees items i :
  GSViewport.GetItem (GSViewport.DeleteItem items i) i = None.
Proof.
  unfold GSViewport.GetItem, GSViewport.DeleteItem.
  destruct (Nat.lt_ge_cases i (length items)) as [Hlt | Hge].
  - rewrite list_lookup_insert_eq by exact Hlt. reflexivity.
  - rewrite list_insert_ge by exact Hge.
    rewrite (lookup_ge_None_2 _ _ Hge). reflexivity.
Qed.

(** Deleting the object just added leaves the sequence [FindFreeId]
    prepared. *)
Lemma Delete_after_Add x items :
  GSViewport.DeleteItem (snd (GSViewport.AddItem x items))
    (fst (GSViewport.AddItem x items)) =
  snd (GSViewport.FindFreeId items).
Proof.
  rewrite AddItem_unfold. cbn [fst snd]. unfold GSViewport.DeleteItem.
  rewrite list_insert_insert_eq.
  apply list_insert_id. apply FindFreeId_slot.
Qed.

Lemma Add_after_Delete_same_id x y items :
  fst (GSViewport.AddItem y
         (GSViewport.DeleteItem (snd (GSViewport.AddItem x items))
            (fst (GSViewport.AddItem x items)))) =
  fst (GSViewport.AddItem x items).
Proof.
  rewrite Delete_after_Add. rewrite !AddItem_unfold. cbn [fst snd].
  apply FindFreeId_first_vacant.
Qed.

Lemma AddItem_lowest x items :
  GSViewport.GetItem items (fst (GSViewport.AddItem x items)) = None /\
  (forall j, (j < fst (GSViewport.AddItem x items))%nat ->
             is_Some (GSViewport.GetItem items j)).
Proof.
  rewrite AddItem_unfold. cbn [fst snd]. split.
  - unfold GSViewport.GetItem.
    destruct (Nat.lt_ge_cases (GSViewport.first_vacant items) (length items))
      as [Hlt | Hge].
    + rewrite first_vacant_lookup by exact Hlt. reflexivity.
    + rewrite (lookup_ge_None_2 _ _ Hge). reflexivity.
  - intros j Hj. destruct (first_vacant_lowest items j Hj) as [y Hy].
    exists y. apply GetItem_Some. exact Hy.
Qed.

Lemma first_vacant_delete items i :
  (i < length items)%nat ->
  GSViewport.first_vacant (GSViewport.DeleteItem items i) =
  Nat.min i (GSViewport.first_vacant items).
Proof.
  unfold GSViewport.DeleteItem. revert i.
  induction items as [ | [a | ] rest IH ]; intros i Hi; simpl in Hi.
  - lia.
  - destruct i as [ | i ]; simpl.
    + reflexivity.
    + rewrite IH by lia. reflexivity.
  - destruct i as [ | i ]; simpl; reflexivity.
Qed.

(** After a deletion the next id is the freed one or a lower id that
    was already free. *)
Lemma Add_after_Delete_lowest z items i y :
  GSViewport.GetItem items i = Some y ->
  fst (GSViewport.AddItem z (GSViewport.DeleteItem items i)) =
  Nat.min i (fst (GSViewport.AddItem z items)).
Proof.
  intros Hi. apply GetItem_Some in Hi. apply lookup_lt_Some in Hi.
  rewrite !AddItem_unfold. cbn [fst]. apply first_vacant_delete. exact Hi.
Qed.

End CollectionFacts.

(** C5: ids are allocated first-fit over vacated slots, per collection.
    [AddItem] (the allocation shared by the four [Add*] operations)
    returns the lowest id that names no object and stores the object
    under it; adding an object and deleting it again leaves every object
    that was there before under its id, and the id so freed is the one
    the next addition returns; after the deletion of any object the next
    id is the freed one, unless a lower id was free already. On the
    viewport: starting with no
    spectrum, A gets id 0 and B id 1, and after deleting A a new spectrum
    C gets id 0 while B is still found under id 1; after
    [DeleteAllXMarkers] the next [AddXMarker] returns id 0; and the
    spectrum operations leave the X markers alone, and conversely. *)
Theorem id_allocation_first_fit :
  (forall (A : Type) (items : GSViewport.Items A) (x : A),
     GSViewport.GetItem items (fst (GSViewport.AddItem x items)) = None /\
     (forall j : nat, (j < fst (GSViewport.AddItem x items))%nat ->
                      is_Some (GSViewport.GetItem items j)) /\
     GSViewport.GetItem (snd (GSViewport.AddItem x items))
       (fst (GSViewport.AddItem x items)) = Some x /\
     (forall (j : nat) (y : A),
        GSViewport.GetItem items j = Some y ->
        GSViewport.GetItem (snd (GSViewport.AddItem x items)) j = Some y /\
        GSViewport.GetItem
          (GSViewport.DeleteItem (snd (GSViewport.AddItem x items))
             (fst (GSViewport.AddItem x items))) j = Some y) /\
     (forall z : A,
        fst (GSViewport.AddItem z
               (GSViewport.DeleteItem (snd (GSViewport.AddItem x items))
                  (fst (GSViewport.AddItem x items)))) =
        fst (GSViewport.AddItem x items)) /\
     (forall (i : nat) (y z : A),
        GSViewport.GetItem items i = Some y ->
        fst (GSViewport.AddItem z (GSViewport.DeleteItem items i)) =
        Nat.min i (fst (GSViewport.AddItem z items)))) /\
  (forall (vp : GSViewport.GSViewport) (a ca b cb c cc : Z),
     GSViewport.fSpectra vp = [] ->
     let rA := GSViewport.AddSpec a ca vp in
     let rB := GSViewport.AddSpec b cb (snd rA) in
     let rC :=
       GSViewport.AddSpec c cc (GSViewport.DeleteSpec (fst rA) (snd rB)) in
     fst rA = 0%nat /\ fst rB = 1%nat /\ fst rC = 0%nat /\
     GSViewport.GetDisplaySpec 1 (snd rC) =
       Some (GSViewport.mkDisplayObj b cb) /\
     GSViewport.GetDisplaySpec 0 (snd rC) =
       Some (GSViewport.mkDisplayObj c cc)) /\
  (forall (vp : GSViewport.GSViewport) (pos : double) (color : Z),
     fst (GSViewport.AddXMarker pos color (GSViewport.DeleteAllXMarkers vp))
     = 0%nat) /\
  (forall (vp : GSViewport.GSViewport) (id : nat) (pos : double) (s c : Z),
     GSViewport.fXMarkers (snd (GSViewport.AddSpec s c vp)) =
       GSViewport.fXMarkers vp /\
     GSViewport.fXMarkers (GSViewport.DeleteSpec id vp) =
       GSViewport.fXMarkers vp /\
     GSViewport.fSpectra (snd (GSViewport.AddXMarker pos c vp)) =
       GSViewport.fSpectra vp /\
     GSViewport.fSpectra (GSViewport.DeleteXMarker id vp) =
       GSViewport.fSpectra vp /\
     GSViewport.fSpectra (GSViewport.DeleteAllXMarkers vp) =
       GSViewport.fSpectra vp).
Proof.
  split; [ | split; [ | split ] ].
  - intros A items x.
    destruct (AddItem_lowest x items) as [Hfree Hlow].
    split; [ exact Hfree | ]. split; [ exact Hlow | ].
    split; [ apply AddItem_stores | ].
    split.
    + intros j y Hj. split.
      * apply AddItem_keeps. exact Hj.
      * apply DeleteItem_keeps.
        -- intros Heq. subst j. rewrite Hfree in Hj. discriminate Hj.
        -- apply AddItem_keeps. exact Hj.
    + split.
      * intros z. apply Add_after_Delete_same_id.
      * intros i y z Hi. eapply Add_after_Delete_lowest. exact Hi.
  - intros [xv yv ym xo yo sp fn xm ymk au pt] a ca b cb c cc Hempty.
    simpl in Hempty. subst sp. repeat split.
  - intros vp pos color. reflexivity.
  - intros vp id pos s c. repeat split.
Qed.

Lemma id_allocation_first_fit_witness :
  fst (GSViewport.AddSpec 7 1 GSViewport.sample) = 0%nat /\
  fst (GSViewport.AddSpec 8 2 (snd (GSViewport.AddSpec 7 1 GSViewport.sample)))
  = 1%nat /\
  fst (GSViewport.AddSpec 9 3
         (GSViewport.DeleteSpec
            (fst (GSViewport.AddSpec 7 1 GSViewport.sample))
            (snd (GSViewport.AddSpec 8 2
                    (snd (GSViewport.AddSpec 7 1 GSViewport.sample))))))
  = 0%nat /\
  GSViewport.GetDisplaySpec 1
    (snd (GSViewport.AddSpec 9 3
            (GSViewport.DeleteSpec
               (fst (GSViewport.AddSpec 7 1 GSViewport.sample))
               (snd (GSViewport.AddSpec 8 2
                       (snd (GSViewport.AddSpec 7 1 GSViewport.sample)))))))
  = Some (GSViewport.mkDisplayObj 8 2) /\
  GSViewport.GetDisplaySpec 0
    (snd (GSViewport.AddSpec 9 3
            (GSViewport.DeleteSpec
               (fst (GSViewport.AddSpec 7 1 GSViewport.sample))
               (snd (GSViewport.AddSpec 8 2
                       (snd (GSViewport.AddSpec 7 1 GSViewport.sample)))))))
  = Some (GSViewport.mkDisplayObj 9 3).
Proof.
  apply (proj1 (proj2 id_allocation_first_fit) GSViewport.sample 7 1 8 2 9 3).
  reflexivity.
Defined.

(** ** Viewport: the visible count range *)



(** * Further properties of the code *)

(** ** Double arithmetic: signs, and the half-pixel bias

    Negating an operand negates a quotient or a product; the quotient of
    two finite values has the sign of the operands; [b - 0.5] and its
    ceiling are exact for an integer [b]. *)

Lemma binary_round_aux_opp (s : bool) (m e : Z) (l : location) :
  binary_round_aux Double.prec Double.emax (negb s) m e l =
  SFopp (binary_round_aux Double.prec Double.emax s m e l).
Proof.
  unfold binary_round_aux.
  destruct (shr_fexp Double.prec Double.emax m e l) as [mrs' e'].
  destruct (shr_fexp Double.prec Double.emax _ e' loc_Exact) as [mrs'' e''].
  destruct (shr_m mrs''); [ reflexivity | | reflexivity ].
  destruct (e'' <=? Double.emax - Double.prec); reflexivity.
Qed.

Lemma div_opp_l (x y : double) :
  Double.div (Double.opp x) y = Double.opp (Double.div x y).
Proof.
  unfold Double.div, Double.opp.
  destruct x as [ sx | sx | | sx mx ex ], y as [ sy | sy | | sy my ey ];
    try reflexivity; try (destruct sx, sy; reflexivity).
  unfold SFdiv, SFopp at 1.
  destruct (SFdiv_core_binary Double.prec Double.emax (Zpos mx) ex (Zpos my) ey)
    as [[mz ez] lz].
  rewrite <- binary_round_aux_opp. destruct sx, sy; reflexivity.
Qed.

Lemma mul_opp_l (x y : double) :
  Double.mul (Double.opp x) y = Double.opp (Double.mul x y).
Proof.
  unfold Double.mul, Double.opp.
  destruct x as [ sx | sx | | sx mx ex ], y as [ sy | sy | | sy my ey ];
    try reflexivity; try (destruct sx, sy; reflexivity).
  unfold SFmul, SFopp at 1.
  rewrite <- binary_round_aux_opp. destruct sx, sy; reflexivity.
Qed.

Lemma binary_round_opp (s : bool) (p : positive) (e : Z) :
  binary_round Double.prec Double.emax (negb s) p e =
  SFopp (binary_round Double.prec Double.emax s p e).
Proof.
  unfold binary_round. destruct (shl_align p e _) as [mz ez].
  apply binary_round_aux_opp.
Qed.

Lemma of_Z_opp (z : Z) :
  z <> 0 -> Double.of_Z (- z) = Double.opp (Double.of_Z z).
Proof.
  intros Hz. destruct z as [ | p | p ]; [ contradiction | | ].
  - change (- Zpos p) with (Zneg p). unfold Double.of_Z, binary_normalize.
    apply (binary_round_opp false).
  - change (- Zneg p) with (Zpos p). unfold Double.of_Z, binary_normalize.
    unfold Double.opp. rewrite <- (binary_round_opp true). reflexivity.
Qed.

Lemma shr_1_nonneg (mrs : shr_record) :
  0 <= shr_m mrs -> 0 <= shr_m (shr_1 mrs).
Proof.
  destruct mrs as [m r s]. destruct m as [ | p | p ]; simpl; intros H;
    try lia; destruct p; simpl; lia.
Qed.

Lemma iter_shr_1_nonneg (n : positive) (mrs : shr_record) :
  0 <= shr_m mrs -> 0 <= shr_m (SpecFloat.iter_pos shr_1 n mrs).
Proof.
  revert mrs. induction n as [ n IH | n IH | ]; intros mrs H; simpl.
  - apply IH, IH, shr_1_nonneg, H.
  - apply IH, IH, H.
  - apply shr_1_nonneg, H.
Qed.

Lemma shr_fexp_nonneg (m e : Z) (l : location) :
  0 <= m -> 0 <= shr_m (fst (shr_fexp Double.prec Double.emax m e l)).
Proof.
  intros H. unfold shr_fexp, shr.
  assert (0 <= shr_m (shr_record_of_loc m l)) as H0
    by (destruct l as [ | [ | | ] ]; exact H).
  destruct (fexp _ _ _ - e) as [ | n | n ]; cbn [fst]; try exact H0.
  apply iter_shr_1_nonneg, H0.
Qed.

Lemma round_nearest_even_nonneg (m : Z) (l : location) :
  0 <= m -> 0 <= round_nearest_even m l.
Proof.
  intros H. destruct l as [ | [ | | ] ]; simpl; try lia.
  destruct (Z.even m); lia.
Qed.

Lemma binary_round_aux_sign (s : bool) (m e : Z) (l : location) :
  0 <= m ->
  DoubleClass.sign_bit (binary_round_aux Double.prec Double.emax s m e l) = Some s.
Proof.
  intros H. unfold binary_round_aux.
  pose proof (shr_fexp_nonneg m e l H) as H1.
  destruct (shr_fexp Double.prec Double.emax m e l) as [mrs' e']. cbn [fst] in H1.
  pose proof (shr_fexp_nonneg _ e' loc_Exact
                (round_nearest_even_nonneg _ (loc_of_shr_record mrs') H1)) as H2.
  destruct (shr_fexp Double.prec Double.emax _ e' loc_Exact) as [mrs'' e''].
  cbn [fst] in H2.
  destruct (shr_m mrs'') as [ | q | q ]; [ reflexivity | | lia ].
  destruct (e'' <=? Double.emax - Double.prec); reflexivity.
Qed.

Lemma div_core_nonneg (m1 m2 : positive) (e1 e2 : Z) :
  0 <= fst (fst (SFdiv_core_binary Double.prec Double.emax (Zpos m1) e1 (Zpos m2) e2)).
Proof.
  unfold SFdiv_core_binary.
  set (s := _ - _ - Z.min _ _).
  set (m' := match s with Zpos _ => Z.shiftl (Zpos m1) s | 0 => Zpos m1 | Zneg _ => 0 end).
  assert (0 <= m') as Hm'.
  { subst m'. destruct s; try lia. apply Z.shiftl_nonneg. lia. }
  destruct (Z.div_eucl m' (Zpos m2)) as [q r] eqn:E. cbn [fst].
  assert (q = m' / Zpos m2) as -> by (unfold Z.div; rewrite E; reflexivity).
  apply Z.div_pos; lia.
Qed.

Lemma div_sign (sx sy : bool) (mx my : positive) (ex ey : Z) :
  DoubleClass.sign_bit
    (Double.div (S754_finite sx mx ex) (S754_finite sy my ey)) =
  Some (xorb sx sy).
Proof.
  unfold Double.div, SFdiv.
  pose proof (div_core_nonneg mx my ex ey) as H.
  destruct (SFdiv_core_binary Double.prec Double.emax (Zpos mx) ex (Zpos my) ey)
    as [[mz ez] lz]. cbn [fst] in H.
  apply binary_round_aux_sign. exact H.
Qed.

Lemma binary_round_gen (s : bool) (p : positive) (e0 : Z) :
  (digits2_pos p <= 53)%positive -> -1000 <= e0 <= 900 ->
  binary_round Double.prec Double.emax s p e0 =
  match Zpos (digits2_pos p) - 53 with
  | Zneg k => S754_finite s (Pos.iter xO p k) (e0 - Zpos k)
  | _ => S754_finite s p e0
  end.
Proof.
  intros Hd He.
  unfold binary_round, shl_align, fexp, emin, Double.prec, Double.emax.
  replace (Z.max (Zpos (digits2_pos p) + e0 - 53) (3 - 1024 - 53))
    with (Zpos (digits2_pos p) + e0 - 53) by lia.
  replace (Zpos (digits2_pos p) + e0 - 53 - e0)
    with (Zpos (digits2_pos p) - 53) by lia.
  destruct (Zpos (digits2_pos p) - 53) as [ | q | k ] eqn:Hk.
  - apply binary_round_aux_exact; lia.
  - lia.
  - replace (Zpos (digits2_pos p) + e0 - 53) with (e0 - Zpos k) by lia.
    apply binary_round_aux_exact.
    + rewrite digits2_shift. lia.
    + lia.
Qed.

Lemma binary_round_scaled_gen (s : bool) (q n : positive) (e0 : Z) :
  (digits2_pos q <= 53)%positive -> -1000 <= e0 <= 900 ->
  binary_round Double.prec Double.emax s (Pos.iter xO q n) (e0 - Zpos n) =
  binary_round Double.prec Double.emax s q e0.
Proof.
  intros Hd He. rewrite (binary_round_gen s q e0 Hd He).
  unfold binary_round, shl_align, fexp, emin, Double.prec, Double.emax.
  rewrite digits2_shift.
  replace (Z.max (Zpos (digits2_pos q + n) + (e0 - Zpos n) - 53)
             (3 - 1024 - 53))
    with (Zpos (digits2_pos q) + e0 - 53) by lia.
  replace (Zpos (digits2_pos q) + e0 - 53 - (e0 - Zpos n))
    with (Zpos (digits2_pos q) - 53 + Zpos n) by lia.
  destruct (Zpos (digits2_pos q) - 53) as [ | t | k ] eqn:Ht.
  - change (0 + Zpos n) with (Zpos n). cbv iota.
    apply binary_round_aux_shift; lia.
  - lia.
  - destruct (Zneg k + Zpos n) as [ | j | d ] eqn:Hc.
    + assert (n = k) as -> by lia.
      apply binary_round_aux_exact; [ rewrite digits2_shift | ]; lia.
    + assert (n = (j + k)%positive) as -> by lia.
      rewrite Pos.iter_add.
      replace (e0 - Zpos (j + k)) with (e0 - Zpos k - Zpos j) by lia.
      apply binary_round_aux_shift; [ rewrite digits2_shift | ]; lia.
    + assert (k = (d + n)%positive) as -> by lia.
      rewrite <- Pos.iter_add.
      replace (Zpos (digits2_pos q) + e0 - 53) with (e0 - Zpos (d + n)) by lia.
      apply binary_round_aux_exact; [ rewrite digits2_shift | ]; lia.
Qed.

Lemma of_Z_pos_repr_bounded (p : positive) :
  Zpos p < 2 ^ 53 ->
  exists (m : positive) (e : Z),
    Double.of_Z (Zpos p) = S754_finite false m e /\
    -52 <= e <= 0 /\ Zpos m = Zpos p * 2 ^ (- e).
Proof.
  intros Hp. unfold Double.of_Z, binary_normalize.
  rewrite binary_round_int by (apply digits2_bound; exact Hp).
  destruct (Zpos (digits2_pos p) - 53) as [ | t | k ] eqn:Hk.
  - exists p, 0. repeat split; [ lia | lia | simpl; lia ].
  - exists p, 0. repeat split; [ lia | lia | simpl; lia ].
  - exists (Pos.iter xO p k), (Zneg k). repeat split; [ lia | lia | ].
    rewrite Zpos_shift. reflexivity.
Qed.

(** [b - 0.5] is computed exactly. *)
Lemma sub_half (b : positive) :
  Zpos b < 2 ^ 52 ->
  Double.sub (Double.of_Z (Zpos b)) Double.half =
  binary_round Double.prec Double.emax false (2 * b - 1) (-1).
Proof.
  intros Hb.
  destruct (of_Z_pos_repr_bounded b) as (m & e & -> & He & Hm); [ lia | ].
  unfold Double.sub, Double.half, SFsub, cond_Zopp.
  replace (Z.min e (-53)) with (-53) by lia.
  rewrite shl_align_value by lia.
  change (Zpos (fst (shl_align (2 ^ 52) (-53) (-53)))) with (2 ^ 52).
  rewrite Hm. rewrite <- Z.mul_assoc, <- Z.pow_add_r by lia.
  replace (- e + (e - -53)) with 53 by lia.
  replace (Zpos b * 2 ^ 53 - 2 ^ 52) with (Zpos (2 * b - 1) * 2 ^ 52) by lia.
  change (2 ^ 52) with (2 ^ Zpos 52). rewrite <- Zpos_shift.
  unfold binary_normalize.
  change (-53) with (-1 - Zpos 52).
  apply binary_round_scaled_gen; [ | lia ].
  apply digits2_bound. lia.
Qed.

Lemma ceil_finite_neg (m k : positive) (c : Z) :
  - (- Zpos m / 2 ^ Zpos k) = c -> c <> 0 ->
  Double.ceil (S754_finite false m (Zneg k)) = Double.of_Z c.
Proof.
  intros Hc Hne. unfold Double.ceil, cond_Zopp.
  change (0 <=? Zneg k) with false. cbv iota zeta.
  change (- Zneg k) with (Zpos k). rewrite Hc.
  destruct (Z.eqb_spec c 0); [ contradiction | reflexivity ].
Qed.

Lemma ceil_sub_half (b : positive) :
  Zpos b < 2 ^ 52 ->
  Double.ceil (Double.sub (Double.of_Z (Zpos b)) Double.half) =
  Double.of_Z (Zpos b).
Proof.
  intros Hb. rewrite sub_half by exact Hb.
  rewrite binary_round_gen by (try apply digits2_bound; lia).
  assert (forall c : Z, 0 < c -> - (- (Zpos (2 * b - 1) * c) / (c * 2)) = Zpos b)
    as Hdiv.
  { intros c Hc. apply Z.opp_inj. rewrite Z.opp_involutive. symmetry.
    apply Z.div_unique with (r := c); nia. }
  assert (- (- Zpos (2 * b - 1) / 2 ^ 1) = Zpos b) as H1.
  { rewrite <- (Hdiv 1) by lia. rewrite Z.mul_1_r. reflexivity. }
  destruct (Zpos (digits2_pos (2 * b - 1)) - 53) as [ | t | k ].
  - apply (ceil_finite_neg _ 1); [ exact H1 | lia ].
  - apply (ceil_finite_neg _ 1); [ exact H1 | lia ].
  - replace (-1 - Zpos k) with (Zneg (k + 1)) by lia.
    apply ceil_finite_neg; [ | lia ].
    rewrite Zpos_shift. rewrite Pos2Z.inj_add, Z.pow_add_r by lia.
    change (2 ^ 1) with 2.
    replace (- (Zpos (2 * b - 1) * 2 ^ Zpos k))
      with (- (Zpos (2 * b - 1) * 2 ^ Zpos k)) by reflexivity.
    apply Hdiv. apply Z.pow_pos_nonneg; lia.
Qed.

Lemma of_Z_nonneg_class (z : Z) :
  0 <= z < 2 ^ 53 ->
  Double.of_Z z = S754_zero false \/
  exists (m : positive) (e : Z), Double.of_Z z = S754_finite false m e.
Proof.
  intros Hz. destruct z as [ | q | q ]; [ left; reflexivity | | lia ].
  right. destruct (of_Z_pos_repr q) as (m & e & H & _); [ lia | ].
  exists m, e. exact H.
Qed.

Lemma sub_self (d : double) :
  DoubleClass.is_finite d = true -> Double.sub d d = S754_zero false.
Proof.
  destruct d as [ s | s | | s m e ]; simpl; intros H; try discriminate H.
  - destruct s; reflexivity.
  - unfold Double.sub, SFsub. rewrite Z.sub_diag. reflexivity.
Qed.

Lemma eqb_refl_finite (d : double) :
  DoubleClass.is_finite d = true -> Double.eqb d d = true.
Proof.
  destruct d as [ s | s | | s m e ]; simpl; intros H; try discriminate H.
  - reflexivity.
  - unfold Double.eqb, SFeqb, SFcompare.
    rewrite Z.compare_refl.
    change (Pos.compare_cont Eq m m) with (Pos.compare m m).
    rewrite Pos.compare_refl. destruct s; reflexivity.
Qed.

(** A zero added to a finite value gives a value equal to it. *)
Lemma add_zero_l_eqb (s : bool) (d : double) :
  DoubleClass.is_finite d = true ->
  Double.eqb (Double.add (S754_zero s) d) d = true.
Proof.
  destruct d as [ s' | s' | | s' m e ]; simpl; intros H; try discriminate H.
  - destruct s, s'; reflexivity.
  - apply (eqb_refl_finite (S754_finite s' m e)). reflexivity.
Qed.

(** ** Painter: where the plot area is empty *)

Lemma IsWithin_wrapped_false (p : Painter.Painter) (x y : Z) :
  Painter.wf p ->
  Painter.fYBase p < Painter.fHeight p \/
  2 ^ 32 <= Painter.fXBase p + Painter.fWidth p ->
  Painter.IsWithin p x y = false.
Proof.
  intros (Hxb & Hyb & Hw & Hh) Hwrap.
  unfold UInt32.wf, UInt32.modulus in Hxb, Hyb, Hw, Hh.
  apply not_true_is_false. intros Hin.
  unfold Painter.IsWithin in Hin.
  rewrite !andb_true_iff, !geb_le, !leb_le in Hin.
  destruct Hin as (((H1 & H2) & H3) & H4).
  destruct Hwrap as [Hy | Hx].
  - rewrite sub_borrow in H3
      by (unfold UInt32.wf, UInt32.modulus; lia).
    unfold UInt32.modulus in H3. lia.
  - unfold UInt32.add, UInt32.wrap, UInt32.modulus in H2.
    assert ((Painter.fXBase p + Painter.fWidth p) mod 2 ^ 32 =
            Painter.fXBase p + Painter.fWidth p - 2 ^ 32) as Hmod.
    { symmetry. apply Z.mod_unique with (q := 1); lia. }
    rewrite Hmod in H2. lia.
Qed.

Lemma IsWithin_base_point (p : Painter.Painter) :
  Painter.wf p ->
  Painter.fHeight p <= Painter.fYBase p ->
  Painter.fXBase p + Painter.fWidth p < 2 ^ 32 ->
  Painter.IsWithin p (Painter.fXBase p) (Painter.fYBase p) = true.
Proof.
  intros (Hxb & Hyb & Hw & Hh) Hy Hx.
  unfold UInt32.wf, UInt32.modulus in Hxb, Hyb, Hw, Hh.
  unfold Painter.IsWithin.
  rewrite !andb_true_iff, !geb_le, !leb_le.
  rewrite sub_no_borrow by (unfold UInt32.wf, UInt32.modulus; lia).
  unfold UInt32.add. rewrite wrap_small by (unfold UInt32.wf, UInt32.modulus; lia).
  lia.
Qed.

(** X1: the plot area of [IsWithin] holds a point exactly when neither
    of its computed bounds wraps, that is when [height <= yBase] and
    [xBase + width < 2^32]; otherwise [IsWithin] is false for every
    point. *)
Theorem IsWithin_nonempty_iff (p : Painter.Painter) :
  Painter.wf p ->
  ((exists x y : Z, Painter.IsWithin p x y = true) <->
   Painter.fHeight p <= Painter.fYBase p /\
   Painter.fXBase p + Painter.fWidth p < 2 ^ 32).
Proof.
  intros Hwf. split.
  - intros (x & y & Hin).
    destruct (Z_lt_le_dec (Painter.fYBase p) (Painter.fHeight p)) as [Hy | Hy].
    + rewrite (IsWithin_wrapped_false p x y Hwf (or_introl Hy)) in Hin.
      discriminate Hin.
    + destruct (Z_lt_le_dec (Painter.fXBase p + Painter.fWidth p) (2 ^ 32))
        as [Hx | Hx]; [ split; assumption | ].
      rewrite (IsWithin_wrapped_false p x y Hwf (or_intror Hx)) in Hin.
      discriminate Hin.
  - intros (Hy & Hx). exists (Painter.fXBase p), (Painter.fYBase p).
    apply IsWithin_base_point; assumption.
Qed.

Lemma sample_wf : Painter.wf Painter.sample.
Proof. unfold Painter.wf, UInt32.wf, UInt32.modulus. simpl. lia. Qed.

Lemma sample_tall_wf : Painter.wf Painter.sample_tall.
Proof. unfold Painter.wf, UInt32.wf, UInt32.modulus. simpl. lia. Qed.

Lemma IsWithin_nonempty_iff_witness :
  (exists x y : Z, Painter.IsWithin Painter.sample_tall x y = true) <->
  Painter.fHeight Painter.sample_tall <= Painter.fYBase Painter.sample_tall /\
  Painter.fXBase Painter.sample_tall + Painter.fWidth Painter.sample_tall
  < 2 ^ 32.
Proof. exact (IsWithin_nonempty_iff Painter.sample_tall sample_tall_wf). Defined.

(** X2: [SetBasePoint] followed by [GetBaseX] returns the [int] it was
    given when that is not negative and [x + 2^32] when it is; and with
    a negative [x] of magnitude at most the width, [IsWithin] is false
    for every point afterwards. *)
Theorem SetBasePoint_negative (p : Painter.Painter) (x y : Z) :
  Painter.wf p ->
  Int32.in_range x = true ->
  PainterAccess.GetBaseX (Painter.SetBasePoint x y p) =
    (if x <? 0 then x + 2 ^ 32 else x) /\
  (x < 0 -> - x <= Painter.fWidth p ->
   forall x' y' : Z,
     Painter.IsWithin (Painter.SetBasePoint x y p) x' y' = false).
Proof.
  intros Hwf Hr.
  unfold Int32.in_range, Int32.min_int, Int32.max_int in Hr.
  apply andb_true_iff in Hr. destruct Hr as [Hlo Hhi].
  apply Z.leb_le in Hlo. apply Z.leb_le in Hhi.
  assert (PainterAccess.GetBaseX (Painter.SetBasePoint x y p) =
          (if x <? 0 then x + 2 ^ 32 else x)) as Hbase.
  { unfold PainterAccess.GetBaseX, Painter.SetBasePoint. simpl.
    unfold UInt32.wrap, UInt32.modulus.
    destruct (Z.ltb_spec x 0) as [Hneg | Hpos].
    - symmetry. apply Z.mod_unique with (q := -1); lia.
    - apply Z.mod_small. lia. }
  split; [ exact Hbase | ].
  intros Hneg Hw x' y'.
  apply IsWithin_wrapped_false.
  - destruct Hwf as (_ & _ & Hwd & Hh).
    unfold Painter.wf, Painter.SetBasePoint. simpl.
    repeat split; try apply wrap_wf; try apply Hwd; apply Hh.
  - right. unfold PainterAccess.GetBaseX in Hbase. rewrite Hbase.
    destruct (Z.ltb_spec x 0) as [_ | Hpos]; [ | lia ].
    unfold Painter.SetBasePoint. simpl. lia.
Qed.

Lemma SetBasePoint_negative_witness :
  PainterAccess.GetBaseX (Painter.SetBasePoint (-1) 310 Painter.sample) =
    (if -1 <? 0 then -1 + 2 ^ 32 else -1) /\
  (-1 < 0 -> - -1 <= Painter.fWidth Painter.sample ->
   forall x' y' : Z,
     Painter.IsWithin (Painter.SetBasePoint (-1) 310 Painter.sample) x' y'
     = false).
Proof.
  apply (SetBasePoint_negative Painter.sample (-1) 310 sample_wf).
  reflexivity.
Defined.

(** X3: for every point inside the plot area the integer overload of
    [XtoE] is the double-precision formula; the wrap of [x - fXBase]
    only concerns pixels outside of it. *)
Theorem XtoE_inside_plot_area (p : Painter.Painter) (x y : Z) :
  Painter.wf p -> UInt32.wf x ->
  Painter.IsWithin p x y = true ->
  Painter.XtoE_UInt_t p x = Painter.XtoE_double p (Double.of_Z x).
Proof.
  intros Hwf Hx Hin. apply XtoE_overloads_agree; try assumption.
  unfold Painter.IsWithin in Hin.
  rewrite !andb_true_iff, !geb_le in Hin. tauto.
Qed.

Lemma XtoE_inside_plot_area_witness :
  Painter.XtoE_UInt_t Painter.sample 200 =
  Painter.XtoE_double Painter.sample (Double.of_Z 200).
Proof.
  apply (XtoE_inside_plot_area Painter.sample 200 100 sample_wf).
  - unfold UInt32.wf, UInt32.modulus. lia.
  - reflexivity.
Defined.

(** ** Painter: degenerate zoom *)

Lemma of_Z_width (w : Z) :
  UInt32.wf w -> 0 < w ->
  exists (m : positive) (e : Z), Double.of_Z w = S754_finite false m e.
Proof.
  intros Hw Hpos. unfold UInt32.wf, UInt32.modulus in Hw.
  destruct (of_Z_nonneg_class w) as [H0 | H]; [ lia | | exact H ].
  destruct w as [ | q | q ]; try lia.
  destruct (of_Z_pos_repr q) as (m & e & H & _); [ lia | ].
  rewrite H in H0. discriminate H0.
Qed.

(** X4: on a painter of positive width, [SetXVisibleRegion] gives the
    zoom the sign of the region it is given, whatever the region: a
    negative region gives a negative (or negative zero, or negative
    infinite) zoom, and the zoom is NaN exactly when the region is. *)
Theorem zoom_sign_follows_region (p : Painter.Painter) (xv : double) :
  Painter.wf p -> 0 < Painter.fWidth p ->
  DoubleClass.sign_bit (Painter.fXZoom (Painter.SetXVisibleRegion xv p)) =
  DoubleClass.sign_bit xv.
Proof.
  intros (_ & _ & Hw & _) Hpos.
  unfold Painter.SetXVisibleRegion. simpl.
  destruct (of_Z_width _ Hw Hpos) as (m & e & ->).
  destruct xv as [ s | s | | s mv ev ]; try reflexivity.
  rewrite div_sign. reflexivity.
Qed.

Lemma not_finite_to_int (d : double) :
  DoubleClass.is_finite d = false -> Double.to_int (Double.ceil d) = None.
Proof.
  destruct d as [ s | s | | s m e ]; simpl; intros H;
    try discriminate H; reflexivity.
Qed.

Lemma mul_not_finite_r (x y : double) :
  DoubleClass.is_finite y = false ->
  DoubleClass.is_finite (Double.mul x y) = false.
Proof.
  destruct x as [ sx | sx | | sx mx ex ], y as [ sy | sy | | sy my ey ];
    simpl; intros H; try discriminate H; reflexivity.
Qed.

Lemma add_not_finite_l (x y : double) :
  DoubleClass.is_finite x = false -> DoubleClass.is_finite y = true ->
  DoubleClass.is_finite (Double.add x y) = false.
Proof.
  destruct x as [ sx | sx | | sx mx ex ], y as [ sy | sy | | sy my ey ];
    simpl; intros Hx Hy; try discriminate Hx; try discriminate Hy;
    reflexivity.
Qed.

Lemma sub_not_finite_l (x y : double) :
  DoubleClass.is_finite x = false -> DoubleClass.is_finite y = true ->
  DoubleClass.is_finite (Double.sub x y) = false.
Proof.
  destruct x as [ sx | sx | | sx mx ex ], y as [ sy | sy | | sy my ey ];
    simpl; intros Hx Hy; try discriminate Hx; try discriminate Hy;
    reflexivity.
Qed.

Lemma of_Z_base_finite (b : Z) :
  UInt32.wf b -> DoubleClass.is_finite (Double.of_Z b) = true.
Proof.
  intros Hb. unfold UInt32.wf, UInt32.modulus in Hb.
  destruct (of_Z_nonneg_class b) as [-> | (m & e & ->)];
    [ lia | reflexivity | reflexivity ].
Qed.

(** With a zoom that is infinite or NaN no energy has a pixel. *)
Lemma EtoX_degenerate_zoom (p : Painter.Painter) (e : double) :
  Painter.wf p ->
  DoubleClass.is_finite (Painter.fXZoom p) = false ->
  Painter.EtoX p e = None.
Proof.
  intros (Hb & _) Hz. unfold Painter.EtoX.
  apply not_finite_to_int.
  apply sub_not_finite_l; [ | reflexivity ].
  apply add_not_finite_l; [ | apply of_Z_base_finite; exact Hb ].
  apply mul_not_finite_r. exact Hz.
Qed.

(** X5: [SetXVisibleRegion] does not guard against a zero region: on a
    painter of positive width a region [+0.0] or [-0.0] makes the zoom
    infinite (of the sign of the zero); from then on [EtoX] is undefined
    for every energy, and the integer overload of [XtoE] maps every
    pixel to the same energy, zero plus the offset. *)
Theorem zero_region_degenerate (p : Painter.Painter) (s : bool) :
  Painter.wf p -> 0 < Painter.fWidth p ->
  Painter.fXZoom (Painter.SetXVisibleRegion (S754_zero s) p) =
    S754_infinity s /\
  (forall e : double,
     Painter.EtoX (Painter.SetXVisibleRegion (S754_zero s) p) e = None) /\
  (forall x : Z,
     Painter.XtoE_UInt_t (Painter.SetXVisibleRegion (S754_zero s) p) x =
     Double.add (S754_zero s) (Painter.fXOffset p)).
Proof.
  intros Hwf Hpos.
  assert (Painter.fXZoom (Painter.SetXVisibleRegion (S754_zero s) p) =
          S754_infinity s) as Hzoom.
  { destruct Hwf as (_ & _ & Hw & _).
    unfold Painter.SetXVisibleRegion. simpl.
    destruct (of_Z_width _ Hw Hpos) as (m & e & ->). reflexivity. }
  split; [ exact Hzoom | ]. split.
  - intros e. apply EtoX_degenerate_zoom.
    + exact Hwf.
    + rewrite Hzoom. reflexivity.
  - intros x. unfold Painter.XtoE_UInt_t. rewrite Hzoom.
    change (Painter.fXBase (Painter.SetXVisibleRegion (S754_zero s) p))
      with (Painter.fXBase p).
    change (Painter.fXOffset (Painter.SetXVisibleRegion (S754_zero s) p))
      with (Painter.fXOffset p).
    destruct (of_Z_nonneg_class (UInt32.sub x (Painter.fXBase p)))
      as [-> | (m & e & ->)]; [ | reflexivity | reflexivity ].
    pose proof (wrap_wf (x - Painter.fXBase p)) as H.
    unfold UInt32.wf, UInt32.modulus in H. unfold UInt32.sub. lia.
Qed.

Lemma zoom_sign_follows_region_witness :
  DoubleClass.sign_bit
    (Painter.fXZoom
       (Painter.SetXVisibleRegion (Double.of_Z (-100)) Painter.sample)) =
  DoubleClass.sign_bit (Double.of_Z (-100)).
Proof.
  apply (zoom_sign_follows_region Painter.sample (Double.of_Z (-100)) sample_wf).
  simpl. lia.
Defined.

Lemma zero_region_degenerate_witness :
  Painter.fXZoom (Painter.SetXVisibleRegion (S754_zero false) Painter.sample) =
    S754_infinity false /\
  (forall e : double,
     Painter.EtoX (Painter.SetXVisibleRegion (S754_zero false) Painter.sample) e
     = None) /\
  (forall x : Z,
     Painter.XtoE_UInt_t
       (Painter.SetXVisibleRegion (S754_zero false) Painter.sample) x =
     Double.add (S754_zero false) (Painter.fXOffset Painter.sample)).
Proof.
  apply (zero_region_degenerate Painter.sample false sample_wf).
  simpl. lia.
Defined.

(** X6: a NaN is never masked by the x transforms: [EtoX] is undefined
    when the energy, the offset or the zoom is NaN, both overloads of
    [XtoE] return NaN when the zoom or the offset is NaN (the double
    overload also when the pixel is), and [SetXVisibleRegion] with a NaN
    region leaves a NaN zoom. *)
Theorem nan_propagates :
  (forall (p : Painter.Painter) (e : double),
     DoubleClass.is_nan e || DoubleClass.is_nan (Painter.fXOffset p)
     || DoubleClass.is_nan (Painter.fXZoom p) = true ->
     Painter.EtoX p e = None) /\
  (forall (p : Painter.Painter) (x : double),
     DoubleClass.is_nan x || DoubleClass.is_nan (Painter.fXOffset p)
     || DoubleClass.is_nan (Painter.fXZoom p) = true ->
     Painter.XtoE_double p x = S754_nan) /\
  (forall (p : Painter.Painter) (x : Z),
     DoubleClass.is_nan (Painter.fXOffset p)
     || DoubleClass.is_nan (Painter.fXZoom p) = true ->
     Painter.XtoE_UInt_t p x = S754_nan) /\
  (forall p : Painter.Painter,
     Painter.fXZoom (Painter.SetXVisibleRegion S754_nan p) = S754_nan).
Proof.
  split; [ | split; [ | split ] ].
  - intros p e H. unfold Painter.EtoX.
    destruct (Painter.fXOffset p) as [ so | so | | so mo eo ],
             (Painter.fXZoom p) as [ sz | sz | | sz mz ez ],
             e as [ se | se | | se me ee ];
      try discriminate H;
      repeat match goal with
        | |- context [Double.sub ?a S754_nan] =>
            replace (Double.sub a S754_nan) with S754_nan
              by (destruct a; reflexivity)
        | |- context [Double.sub S754_nan ?a] =>
            change (Double.sub S754_nan a) with S754_nan
        | |- context [Double.mul ?a S754_nan] =>
            replace (Double.mul a S754_nan) with S754_nan
              by (destruct a; reflexivity)
        | |- context [Double.mul S754_nan ?a] =>
            change (Double.mul S754_nan a) with S754_nan
        | |- context [Double.add S754_nan ?a] =>
            change (Double.add S754_nan a) with S754_nan
        end;
      reflexivity.
  - intros p x H. unfold Painter.XtoE_double.
    destruct (Painter.fXOffset p) as [ so | so | | so mo eo ],
             (Painter.fXZoom p) as [ sz | sz | | sz mz ez ],
             x as [ sx | sx | | sx mx ex ];
      try discriminate H;
      repeat match goal with
        | |- context [Double.sub S754_nan ?a] =>
            change (Double.sub S754_nan a) with S754_nan
        | |- context [Double.div ?a S754_nan] =>
            replace (Double.div a S754_nan) with S754_nan
              by (destruct a; reflexivity)
        | |- context [Double.div S754_nan ?a] =>
            change (Double.div S754_nan a) with S754_nan
        | |- context [Double.add ?a S754_nan] =>
            replace (Double.add a S754_nan) with S754_nan
              by (destruct a; reflexivity)
        | |- context [Double.add S754_nan ?a] =>
            change (Double.add S754_nan a) with S754_nan
        end;
      reflexivity.
  - intros p x H. unfold Painter.XtoE_UInt_t.
    destruct (Painter.fXOffset p) as [ so | so | | so mo eo ],
             (Painter.fXZoom p) as [ sz | sz | | sz mz ez ];
      try discriminate H;
      repeat match goal with
        | |- context [Double.div ?a S754_nan] =>
            replace (Double.div a S754_nan) with S754_nan
              by (destruct a; reflexivity)
        | |- context [Double.add ?a S754_nan] =>
            replace (Double.add a S754_nan) with S754_nan
              by (destruct a; reflexivity)
        | |- context [Double.add S754_nan ?a] =>
            change (Double.add S754_nan a) with S754_nan
        end;
      reflexivity.
  - intros p. unfold Painter.SetXVisibleRegion. simpl.
    destruct (Double.of_Z (Painter.fWidth p)); reflexivity.
Qed.

Lemma nan_propagates_witness :
  Painter.EtoX Painter.sample S754_nan = None.
Proof.
  apply (proj1 nan_propagates Painter.sample S754_nan). reflexivity.
Defined.

(** ** Painter: the base point and the offset *)

Lemma sub_same_pixel (b : Z) : UInt32.sub b b = 0.
Proof. unfold UInt32.sub, UInt32.wrap. rewrite Z.sub_diag. reflexivity. Qed.

Lemma to_int_of_Z_nonneg (b : Z) :
  0 <= b < 2 ^ 53 ->
  Double.to_int (Double.of_Z b) =
  if b <=? Int32.max_int then Some b else None.
Proof.
  intros Hb. unfold Double.to_int. rewrite trunc_of_Z by lia.
  unfold Int32.in_range.
  replace (Int32.min_int <=? b) with true
    by (symmetry; apply Z.leb_le; unfold Int32.min_int; lia).
  reflexivity.
Qed.

Lemma EtoX_at_offset (p : Painter.Painter) (sz : bool) (mz : positive) (ez : Z) :
  Painter.wf p ->
  Painter.fXZoom p = S754_finite sz mz ez ->
  DoubleClass.is_finite (Painter.fXOffset p) = true ->
  Painter.EtoX p (Painter.fXOffset p) =
  if Painter.fXBase p <=? Int32.max_int then Some (Painter.fXBase p) else None.
Proof.
  intros (Hb & _) Hz Ho. unfold UInt32.wf, UInt32.modulus in Hb.
  unfold Painter.EtoX. rewrite (sub_self _ Ho), Hz.
  change (Double.mul (S754_zero false) (S754_finite sz mz ez))
    with (S754_zero (xorb false sz)).
  destruct (Painter.fXBase p) as [ | b | b ] eqn:Eb; [ | | lia ].
  - destruct sz; vm_compute; reflexivity.
  - destruct (of_Z_pos_repr b) as (m & e & Hrepr & _); [ lia | ].
    replace (Double.add (S754_zero (xorb false sz)) (Double.of_Z (Zpos b)))
      with (Double.of_Z (Zpos b)) by (rewrite Hrepr; reflexivity).
    rewrite ceil_sub_half by lia.
    apply to_int_of_Z_nonneg. lia.
Qed.

(** X7: the coordinate system of the header comment. On a painter whose
    zoom is finite and not zero and whose offset is finite, the base
    point is the pixel of the offset energy: both overloads of [XtoE]
    return at [fXBase] a value equal to [fXOffset], and [EtoX] maps
    [fXOffset] back to [fXBase] (which is an [int] up to 2^31 - 1;
    above, the conversion is undefined). *)
Theorem offset_energy_at_base_point
  (p : Painter.Painter) (sz : bool) (mz : positive) (ez : Z) :
  Painter.wf p ->
  Painter.fXZoom p = S754_finite sz mz ez ->
  DoubleClass.is_finite (Painter.fXOffset p) = true ->
  Double.eqb (Painter.XtoE_UInt_t p (Painter.fXBase p)) (Painter.fXOffset p)
    = true /\
  Double.eqb (Painter.XtoE_double p (Double.of_Z (Painter.fXBase p)))
    (Painter.fXOffset p) = true /\
  Painter.EtoX p (Painter.fXOffset p) =
    (if Painter.fXBase p <=? Int32.max_int
     then Some (Painter.fXBase p) else None).
Proof.
  intros Hwf Hz Ho.
  split; [ | split ].
  - unfold Painter.XtoE_UInt_t. rewrite sub_same_pixel, Hz.
    change (Double.div (Double.of_Z 0) (S754_finite sz mz ez))
      with (S754_zero (xorb false sz)).
    apply add_zero_l_eqb. exact Ho.
  - unfold Painter.XtoE_double.
    destruct Hwf as (Hb & _). unfold UInt32.wf, UInt32.modulus in Hb.
    rewrite sub_of_Z by lia. rewrite Z.sub_diag, Hz.
    change (Double.div (Double.of_Z 0) (S754_finite sz mz ez))
      with (S754_zero (xorb false sz)).
    apply add_zero_l_eqb. exact Ho.
  - eapply EtoX_at_offset; eassumption.
Qed.

Lemma offset_energy_at_base_point_witness :
  Double.eqb
    (Painter.XtoE_UInt_t (Painter.SetXOffset (Double.of_Z 7) Painter.sample)
       (Painter.fXBase (Painter.SetXOffset (Double.of_Z 7) Painter.sample)))
    (Painter.fXOffset (Painter.SetXOffset (Double.of_Z 7) Painter.sample))
    = true /\
  Double.eqb
    (Painter.XtoE_double (Painter.SetXOffset (Double.of_Z 7) Painter.sample)
       (Double.of_Z
          (Painter.fXBase (Painter.SetXOffset (Double.of_Z 7) Painter.sample))))
    (Painter.fXOffset (Painter.SetXOffset (Double.of_Z 7) Painter.sample))
    = true /\
  Painter.EtoX (Painter.SetXOffset (Double.of_Z 7) Painter.sample)
    (Painter.fXOffset (Painter.SetXOffset (Double.of_Z 7) Painter.sample)) =
    (if Painter.fXBase (Painter.SetXOffset (Double.of_Z 7) Painter.sample)
        <=? Int32.max_int
     then Some (Painter.fXBase (Painter.SetXOffset (Double.of_Z 7) Painter.sample))
     else None).
Proof.
  apply (offset_energy_at_base_point
           (Painter.SetXOffset (Double.of_Z 7) Painter.sample)
           false 4503599627370496 (-52)).
  - exact sample_wf.
  - vm_compute. reflexivity.
  - vm_compute. reflexivity.
Defined.

(** ** Painter: displacements *)

(** X8: the displacement transforms are odd, exactly: for an [int]
    pixel distance [dX] other than 0 whose negative is an [int] too
    (that is, other than [INT_MIN]), [dXtodE(-dX)] is [- dXtodE(dX)],
    and for every energy distance [dE], NaN included, [dEtodX(-dE)] is
    [- dEtodX(dE)]; neither depends on the offset or the base point. *)
Theorem displacements_odd :
  (forall (p : Painter.Painter) (dX : Z),
     Int32.in_range dX = true -> Int32.in_range (- dX) = true ->
     dX <> 0 ->
     Painter.dXtodE p (- dX) = Double.opp (Painter.dXtodE p dX)) /\
  (forall (p : Painter.Painter) (dE : double),
     Painter.dEtodX p (Double.opp dE) = Double.opp (Painter.dEtodX p dE)) /\
  (forall (p : Painter.Painter) (o : double) (x y dX : Z) (dE : double),
     Int32.in_range x = true -> Int32.in_range y = true ->
     Int32.in_range dX = true ->
     Painter.dXtodE (Painter.SetXOffset o (Painter.SetBasePoint x y p)) dX =
       Painter.dXtodE p dX /\
     Painter.dEtodX (Painter.SetXOffset o (Painter.SetBasePoint x y p)) dE =
       Painter.dEtodX p dE).
Proof.
  split; [ | split ].
  - intros p dX _ _ Hne. unfold Painter.dXtodE.
    rewrite of_Z_opp by exact Hne. apply div_opp_l.
  - intros p dE. unfold Painter.dEtodX. apply mul_opp_l.
  - intros p o x y dX dE _ _ _. split; reflexivity.
Qed.

Lemma displacements_odd_witness :
  Painter.dXtodE Painter.sample (- 3) =
  Double.opp (Painter.dXtodE Painter.sample 3).
Proof.
  apply (proj1 displacements_odd Painter.sample 3);
    [ reflexivity | reflexivity | lia ].
Defined.

(** ** Viewer: key events, construction *)

(** X9: [HandleKey] calls nothing but [LookupString] and [KeyPressed],
    never the scrollbar handler; it refreshes the key string from the
    very event it was given before every [KeyPressed] it emits, and
    looks a key up only to emit [KeyPressed]. *)
Theorem HandleKey_lookup_then_signal (kGKeyPress : Z) (ev : Viewer.Event_t) :
  (forall c : Viewer.Call,
     In c (Viewer.calls (Viewer.HandleKey kGKeyPress ev)) ->
     c = Viewer.CallLookupString ev \/ c = Viewer.CallKeyPressed) /\
  (In (Viewer.CallLookupString ev)
      (Viewer.calls (Viewer.HandleKey kGKeyPress ev)) <->
   In Viewer.CallKeyPressed (Viewer.calls (Viewer.HandleKey kGKeyPress ev))) /\
  (forall l1 l2 : list Viewer.Call,
     Viewer.calls (Viewer.HandleKey kGKeyPress ev) =
       l1 ++ Viewer.CallKeyPressed :: l2 ->
     In (Viewer.CallLookupString ev) l1).
Proof.
  unfold Viewer.HandleKey.
  destruct (Viewer.fType ev =? kGKeyPress); cbn.
  - split; [ | split ].
    + intros c [<- | [<- | []]]; [ left | right ]; reflexivity.
    + split; intros _; [ right; left | left ]; reflexivity.
    + intros l1 l2 H.
      destruct l1 as [ | a [ | b l1 ] ]; cbn in H.
      * discriminate H.
      * injection H as <- _. left. reflexivity.
      * injection H as _ _ H. destruct l1; discriminate H.
  - split; [ | split ].
    + intros c [].
    + split; intros [].
    + intros l1 l2 H. destruct l1; discriminate H.
Qed.

(** X10: the constructor creates the view 4 pixels smaller than the
    window in each direction, the difference being taken on [UInt_t]
    operands: a window dimension below 4 gives the view that dimension
    plus 4294967292; and every widget the constructor creates is deleted
    by the destructor. *)
Theorem Viewer_ctor_view_size
  (kLHintsExpandX kLHintsExpandY kDefaultScrollBarWidth kKeyPressMask : Z)
  (w h : Z) (title : list Byte.byte) :
  UInt32.wf w -> UInt32.wf h ->
  ViewerSetup.created_size ViewerSetup.View
    (ViewerSetup.Viewer_ctor kLHintsExpandX kLHintsExpandY
       kDefaultScrollBarWidth kKeyPressMask w h title) =
  Some (if 4 <=? w then w - 4 else w + 4294967292,
        if 4 <=? h then h - 4 else h + 4294967292) /\
  (forall wd : ViewerSetup.Widget,
     is_Some (ViewerSetup.created_size wd
                (ViewerSetup.Viewer_ctor kLHintsExpandX kLHintsExpandY
                   kDefaultScrollBarWidth kKeyPressMask w h title)) /\
     In (ViewerSetup.Delete wd) ViewerSetup.Viewer_dtor).
Proof.
  intros Hw Hh. split.
  - cbn. f_equal.
    assert (forall a : Z, UInt32.wf a ->
              UInt32.sub a 4 = if 4 <=? a then a - 4 else a + 4294967292)
      as Hsub.
    { intros a Ha. destruct (Z.leb_spec 4 a) as [Hge | Hlt].
      - apply sub_no_borrow; [ exact Ha | | exact Hge ].
        unfold UInt32.wf, UInt32.modulus. lia.
      - rewrite sub_borrow; [ unfold UInt32.modulus; lia | exact Ha | | lia ].
        unfold UInt32.wf, UInt32.modulus. lia. }
    rewrite (Hsub w Hw), (Hsub h Hh). reflexivity.
  - intros wd. split.
    + destruct wd; cbn; eexists; reflexivity.
    + destruct wd; cbn; auto.
Qed.

Lemma Viewer_ctor_view_size_witness :
  ViewerSetup.created_size ViewerSetup.View
    (ViewerSetup.Viewer_ctor 1 2 16 1 3 300 []) =
  Some (if 4 <=? 3 then 3 - 4 else 3 + 4294967292,
        if 4 <=? 300 then 300 - 4 else 300 + 4294967292) /\
  (forall wd : ViewerSetup.Widget,
     is_Some (ViewerSetup.created_size wd
                (ViewerSetup.Viewer_ctor 1 2 16 1 3 300 [])) /\
     In (ViewerSetup.Delete wd) ViewerSetup.Viewer_dtor).
Proof.
  apply (Viewer_ctor_view_size 1 2 16 1 3 300 []);
    unfold UInt32.wf, UInt32.modulus; lia.
Defined.

(** ** Painter: infinite region, and the sign of the integer overload *)

Lemma EtoX_when_product_zero (p : Painter.Painter) (e : double) (s : bool) :
  Painter.wf p ->
  Double.mul (Double.sub e (Painter.fXOffset p)) (Painter.fXZoom p) =
    S754_zero s ->
  Painter.EtoX p e =
  if Painter.fXBase p <=? Int32.max_int then Some (Painter.fXBase p) else None.
Proof.
  intros (Hb & _) Hmul. unfold UInt32.wf, UInt32.modulus in Hb.
  unfold Painter.EtoX. rewrite Hmul.
  destruct (Painter.fXBase p) as [ | b | b ] eqn:Eb; [ | | lia ].
  - destruct s; vm_compute; reflexivity.
  - destruct (of_Z_pos_repr b) as (m & ex & Hrepr & _); [ lia | ].
    replace (Double.add (S754_zero s) (Double.of_Z (Zpos b)))
      with (Double.of_Z (Zpos b)) by (rewrite Hrepr; reflexivity).
    rewrite ceil_sub_half by lia.
    apply to_int_of_Z_nonneg. lia.
Qed.

(** X11: [SetXVisibleRegion] does not guard against an infinite region
    either: on a painter of positive width it makes the zoom a zero (of
    the sign of the region), and from then on [EtoX] maps every energy
    at a finite distance from the offset to the base point. *)
Theorem infinite_region_collapses
  (p : Painter.Painter) (s : bool) (e : double) :
  Painter.wf p -> 0 < Painter.fWidth p ->
  Painter.fXZoom (Painter.SetXVisibleRegion (S754_infinity s) p) =
    S754_zero s /\
  (DoubleClass.is_finite (Double.sub e (Painter.fXOffset p)) = true ->
   Painter.EtoX (Painter.SetXVisibleRegion (S754_infinity s) p) e =
   if Painter.fXBase p <=? Int32.max_int
   then Some (Painter.fXBase p) else None).
Proof.
  intros Hwf Hpos.
  assert (Painter.fXZoom (Painter.SetXVisibleRegion (S754_infinity s) p) =
          S754_zero s) as Hzoom.
  { destruct Hwf as (_ & _ & Hw & _).
    unfold Painter.SetXVisibleRegion. simpl.
    destruct (of_Z_width _ Hw Hpos) as (m & ex & ->). reflexivity. }
  split; [ exact Hzoom | ].
  intros Hfin.
  change (Painter.fXBase p)
    with (Painter.fXBase (Painter.SetXVisibleRegion (S754_infinity s) p)).
  destruct (Double.sub e (Painter.fXOffset p)) as [ sd | sd | | sd md ed ] eqn:Ed;
    try discriminate Hfin.
  - apply (EtoX_when_product_zero _ e (xorb sd s)); [ exact Hwf | ].
    rewrite Hzoom.
    change (Painter.fXOffset (Painter.SetXVisibleRegion (S754_infinity s) p))
      with (Painter.fXOffset p).
    rewrite Ed. reflexivity.
  - apply (EtoX_when_product_zero _ e (xorb sd s)); [ exact Hwf | ].
    rewrite Hzoom.
    change (Painter.fXOffset (Painter.SetXVisibleRegion (S754_infinity s) p))
      with (Painter.fXOffset p).
    rewrite Ed. reflexivity.
Qed.

Lemma infinite_region_collapses_witness :
  Painter.fXZoom (Painter.SetXVisibleRegion (S754_infinity false) Painter.sample)
    = S754_zero false /\
  (DoubleClass.is_finite
     (Double.sub (Double.of_Z 123) (Painter.fXOffset Painter.sample)) = true ->
   Painter.EtoX (Painter.SetXVisibleRegion (S754_infinity false) Painter.sample)
     (Double.of_Z 123) =
   if Painter.fXBase Painter.sample <=? Int32.max_int
   then Some (Painter.fXBase Painter.sample) else None).
Proof.
  apply (infinite_region_collapses Painter.sample false (Double.of_Z 123)
           sample_wf).
  simpl. lia.
Defined.

(** X12: with offset [+0.0] and a positive finite zoom the integer
    overload of [XtoE] never returns a negative energy (nor a negative
    zero or a NaN), not even for a pixel left of the base point. *)
Theorem XtoE_UInt_t_never_negative
  (p : Painter.Painter) (mz : positive) (ez : Z) (x : Z) :
  Painter.fXZoom p = S754_finite false mz ez ->
  Painter.fXOffset p = Double.zero ->
  DoubleClass.sign_bit (Painter.XtoE_UInt_t p x) = Some false.
Proof.
  intros Hz Ho. unfold Painter.XtoE_UInt_t. rewrite Hz, Ho.
  pose proof (wrap_wf (x - Painter.fXBase p)) as Hwf.
  unfold UInt32.wf, UInt32.modulus in Hwf.
  destruct (of_Z_nonneg_class (UInt32.sub x (Painter.fXBase p)))
    as [-> | (m & e & ->)]; [ unfold UInt32.sub; lia | reflexivity | ].
  pose proof (div_sign false false m mz e ez) as Hs.
  destruct (Double.div (S754_finite false m e) (S754_finite false mz ez))
    as [ sv | sv | | sv mv ev ]; simpl in Hs; try discriminate Hs;
    injection Hs as ->; reflexivity.
Qed.

Lemma XtoE_UInt_t_never_negative_witness :
  DoubleClass.sign_bit (Painter.XtoE_UInt_t Painter.sample 5) = Some false /\
  DoubleClass.sign_bit
    (Painter.XtoE_double Painter.sample (Double.of_Z 5)) = Some true.
Proof.
  split.
  - apply (XtoE_UInt_t_never_negative Painter.sample 4503599627370496 (-52) 5);
      vm_compute; reflexivity.
  - vm_compute. reflexivity.
Defined.
